(** * Multi-agent CV analyser: the notebook's own code, embedded and verified

    The notebook [multi_agent_ecosistem.ipynb] configures five AutoGen agents
    and supplies four pieces of code of its own:
    - [termination_message], the termination predicate (cell 3);
    - [read_txt], the file-reading tool (cell 6) and its registration (cell 7);
    - [custom_speaker_selection], the hybrid speaker-selection callback
      (cell 8), plugged into the group chat of cell 9;
    - the two expressions that read the chat history (cells 11 and 12).

    Python values are embedded as an inductive type, dictionaries as finite
    maps with string keys, exceptions as an error type, and the objects the
    callback receives as an explicit store threaded through a small
    state-and-exception monad. *)

From Stdlib Require Import ZArith Ascii String List Bool Lia.
From stdpp Require Import base option list strings gmap fin_maps.

Local Open Scope string_scope.
Local Open Scope list_scope.

(** ** Python values and exceptions *)

Module Py.

(** The JSON-like values that occur in a chat message. *)
#[warnings="-register-all"]
Inductive value : Type :=
| VNone
| VBool (b : bool)
| VInt (z : Z)
| VStr (s : string)
| VList (items : list value)
| VDict (items : list (string * value)).

(** The exceptions the notebook's code can raise. *)
Inductive exn : Type :=
| AttributeError
| IndexError
| KeyError
| StopIteration
| FileNotFoundError
| IsADirectoryError
| PermissionError
| UnicodeDecodeError.

Inductive result (A : Type) : Type :=
| Ok (a : A)
| Raise (e : exn).
Arguments Ok {A} a.
Arguments Raise {A} e.

#[global] Instance result_ret : MRet result := fun A a => Ok a.
#[global] Instance result_bind : MBind result := fun A B f r =>
  match r with
  | Ok a => f a
  | Raise e => Raise e
  end.

#[global] Instance result_fmap : FMap result := fun A B f r =>
  match r with
  | Ok a => Ok (f a)
  | Raise e => Raise e
  end.

Definition returns {A} (r : result A) : Prop := exists a, r = Ok a.

(** [bool(v)]: Python's truth value of a value. *)
Definition truthy (v : value) : bool :=
  match v with
  | VNone => false
  | VBool b => b
  | VInt z => negb (Z.eqb z 0)
  | VStr s => negb (String.eqb s EmptyString)
  | VList items => negb (Nat.eqb (List.length items) 0)
  | VDict items => negb (Nat.eqb (List.length items) 0)
  end.

(** [d.get(key, default)] on a dictionary. *)
Definition dict_get (d : gmap string value) (key : string) (dflt : value) : value :=
  default dflt (d !! key).

(** [d[key]]: raises [KeyError] when the key is absent. *)
Definition dict_item (d : gmap string value) (key : string) : result value :=
  match d !! key with
  | Some v => Ok v
  | None => Raise KeyError
  end.

(** [bool(d)] on a dictionary: true when it has at least one key. *)
Definition dict_truthy (d : gmap string value) : bool :=
  negb (Nat.eqb (size d) 0).

(** [l[i]] with Python's negative indices; [IndexError] out of range. *)
Definition list_item {A} (l : list A) (i : Z) : result A :=
  let n := Z.of_nat (List.length l) in
  let j := if (i <? 0)%Z then (i + n)%Z else i in
  if ((j <? 0) || (n <=? j))%Z then Raise IndexError
  else match l !! Z.to_nat j with
       | Some x => Ok x
       | None => Raise IndexError
       end.

(** [next(x for x in l if p x)]: the first element that passes the filter,
    [StopIteration] when the generator is exhausted. *)
Definition next_where {A} (p : A -> bool) (l : list A) : result A :=
  match List.find p l with
  | Some x => Ok x
  | None => Raise StopIteration
  end.

(** *** Strings *)

(** [str.lower] on one character.  Strings are sequences of 8-bit
    characters here; the letters [A]..[Z] are mapped to [a]..[z] and every
    other character is left as it is. *)
Definition lower_char (c : ascii) : ascii :=
  let n := nat_of_ascii c in
  if (65 <=? n)%nat && (n <=? 90)%nat then ascii_of_nat (n + 32) else c.

Fixpoint lower (s : string) : string :=
  match s with
  | EmptyString => EmptyString
  | String c s' => String (lower_char c) (lower s')
  end.

(** [v.lower()]: only strings have the method. *)
Definition call_lower (v : value) : result string :=
  match v with
  | VStr s => Ok (lower s)
  | _ => Raise AttributeError
  end.

(** [hay.startswith(needle)]. *)
Fixpoint starts_with (needle hay : string) : bool :=
  match needle, hay with
  | EmptyString, _ => true
  | String _ _, EmptyString => false
  | String a needle', String b hay' => Ascii.eqb a b && starts_with needle' hay'
  end.

(** [needle in hay] on strings: substring containment. *)
Fixpoint str_in (needle hay : string) : bool :=
  starts_with needle hay ||
  match hay with
  | EmptyString => false
  | String _ hay' => str_in needle hay'
  end.

(** [x in l] on a list of strings. *)
Definition list_in (x : string) (l : list string) : bool :=
  List.existsb (String.eqb x) l.

End Py.
Import Py.

(** A chat message is a dictionary with string keys. *)
Abbreviation message := (gmap string value).

(** ** Cell 3: the termination predicate *)

Definition termination_message (msg : message) : result bool :=
  content ← call_lower (dict_get msg "content" (VStr EmptyString));
  mret (str_in "terminate" content).

(** ** Agents, the group chat and the store

    [Agent] keeps what the notebook sets on an agent and what the framework
    records when a tool is registered: the functions the agent may execute
    ([function_map]) and the tools offered to its model ([tools]). *)

Inductive pyfunction : Type := read_txt_fn.

Record Agent : Type := {
  name : string;
  llm_config : option string;
  tools : list string;
  function_map : gmap string pyfunction
}.

Record GroupChat : Type := {
  agents : list Agent;
  messages : list message
}.

(** The objects a call of the speaker-selection callback can reach: its two
    arguments. *)
Record Store : Type := {
  last_speaker : Agent;
  groupchat : GroupChat
}.

(** State-and-exception monad over the store: a raised exception leaves the
    store as it was when the exception was raised. *)
Definition M (A : Type) : Type := Store -> result A * Store.

#[global] Instance M_ret : MRet M := fun A a σ => (Ok a, σ).
#[global] Instance M_bind : MBind M := fun A B f c σ =>
  match c σ with
  | (Ok a, σ') => f a σ'
  | (Raise e, σ') => (Raise e, σ')
  end.
#[global] Instance M_fmap : FMap M := fun A B f c σ =>
  match c σ with
  | (Ok a, σ') => (Ok (f a), σ')
  | (Raise e, σ') => (Raise e, σ')
  end.

(** Read an attribute path of the store. *)
Definition gets {A} (f : Store -> A) : M A := fun σ => (Ok (f σ), σ).
(** Replace the store (attribute assignment, [list.append], ...). *)
Definition puts (f : Store -> Store) : M unit := fun σ => (Ok tt, f σ).
(** Evaluate a store-independent expression. *)
Definition lift {A} (r : result A) : M A := fun σ => (r, σ).

(** The callback returns an agent or the string ['auto']. *)
Inductive selection : Type :=
| Speaker (a : Agent)
| Auto.

(** [s == v] for a string [s] and an arbitrary value [v]. *)
Definition str_eq_value (s : string) (v : value) : bool :=
  match v with
  | VStr t => String.eqb s t
  | _ => false
  end.

(** ** Cell 8: the speaker-selection callback *)

Definition agents_to_check : list string :=
  ["cv analyser"; "skills extractor"; "courses recommender"].

(** Line 342: the condition of the route-back rule, with Python's
    short-circuit [and]. *)
Definition route_back_condition (last_speaker_name : string)
    (penultimate_speaker_name : value) : M bool :=
  if String.eqb last_speaker_name "user" then
    if truthy penultimate_speaker_name then
      l ← lift (call_lower penultimate_speaker_name);
      mret (negb (list_in l ["user"; "resolution checker agent"]))
    else mret false
  else mret false.

(** Lines 336-351: the rule chain over what lines 328-334 extracted. *)
Definition routing_rules (last_message : message) (last_speaker_name : string)
    (penultimate_speaker_name : value) : M selection :=
  (* If the agent has made a tool call, call the 'User' *)
  if truthy (dict_get last_message "tool_calls" (VStr EmptyString)) then
    ags ← gets (fun σ => agents (groupchat σ));
    Speaker <$> lift (next_where (fun agent => String.eqb (name agent) "User") ags)
  else
  (* If the last speaker was the 'User' and the penultimate speaker was not
     the user or the Resolution Checker Agent, call the penultimate speaker *)
  back ← route_back_condition last_speaker_name penultimate_speaker_name;
  if (back : bool) then
    ags ← gets (fun σ => agents (groupchat σ));
    Speaker <$> lift (next_where
      (fun agent => str_eq_value (name agent) penultimate_speaker_name) ags)
  else
  (* An agent has given an answer: call the 'Resolution Checker Agent' *)
  if list_in last_speaker_name agents_to_check then
    ags ← gets (fun σ => agents (groupchat σ));
    Speaker <$> lift (next_where
      (fun agent => String.eqb (name agent) "Resolution Checker Agent") ags)
  else
  (* If no condition is met, leave the automatic configuration *)
  mret Auto.

Definition custom_speaker_selection : M selection :=
  (* Extract the last and penultimate messages *)
  msgs ← gets (fun σ => messages (groupchat σ));
  last_message ← lift (list_item msgs (-1));
  n ← gets (fun σ => List.length (messages (groupchat σ)));
  penultimate_message ←
    (if (1 <? n)%nat
     then msgs ← gets (fun σ => messages (groupchat σ));
          Some <$> lift (list_item msgs (-2))
     else mret None);
  (* Extract the names of the last and penultimate speakers *)
  last_speaker_name ← gets (fun σ => lower (name (last_speaker σ)));
  penultimate_speaker_name ←
    match penultimate_message with
    | Some m => if dict_truthy m then lift (dict_item m "name") else mret VNone
    | None => mret VNone
    end;
  routing_rules last_message last_speaker_name penultimate_speaker_name.

(** *** Vocabulary of the statements *)

(** The last message carries a non-empty [tool_calls] field. *)
Definition has_tool_call (m : message) : Prop :=
  truthy (dict_get m "tool_calls" (VStr EmptyString)) = true.

(** The speaker recorded in a transcript message. *)
Definition speaker_of (m : message) : option string :=
  match m !! "name" with
  | Some (VStr n) => Some n
  | _ => None
  end.

(** Every message of the transcript records its speaker; the framework
    sets the key when it appends a message to the group chat. *)
Definition recorded (msgs : list message) : Prop :=
  Forall (fun m => is_Some (speaker_of m)) msgs.

(** The three task agents, as they are named in cell 5. *)
Definition task_agents : list string :=
  ["CV Analyser"; "Skills Extractor"; "Courses recommender"].

(** ** Cells 2, 4, 5, 7 and 9: the configured ecosystem *)

Definition llama31_config : string := "llama-3.1-8b-instant".
Definition gemma2_config : string := "gemma2-9b-it".

(** [UserProxyAgent(name=..., llm_config=False, ...)]. *)
Definition UserProxyAgent (nm : string) : Agent :=
  {| name := nm; llm_config := None; tools := []; function_map := ∅ |}.

(** [AssistantAgent(name=..., llm_config=cfg, ...)]. *)
Definition AssistantAgent (nm cfg : string) : Agent :=
  {| name := nm; llm_config := Some cfg; tools := []; function_map := ∅ |}.

(** The notebook's agent variables; the objects they are bound to are
    updated in place when a tool is registered. *)
Inductive agent_var : Type :=
| user_proxy
| cv_analyser
| skills_extractor
| courses_recommender
| resolution_checker.

#[global] Instance agent_var_eq_dec : EqDecision agent_var.
Proof. solve_decision. Defined.

#[global] Instance pyfunction_eq_dec : EqDecision pyfunction.
Proof. solve_decision. Defined.

Definition Globals : Type := agent_var -> Agent.

(** Cells 4 and 5. *)
Definition cell5 : Globals := fun v =>
  match v with
  | user_proxy => UserProxyAgent "User"
  | cv_analyser => AssistantAgent "CV Analyser" llama31_config
  | skills_extractor => AssistantAgent "Skills Extractor" llama31_config
  | courses_recommender => AssistantAgent "Courses recommender" llama31_config
  | resolution_checker => AssistantAgent "Resolution Checker Agent" gemma2_config
  end.

(** The framework's [register_function(f, caller=, executor=, name=, ...)]:
    the caller's model is offered the tool, the executor's function map
    receives the function under the tool's name. *)
Definition register_for_llm (nm : string) (a : Agent) : Agent :=
  {| name := name a; llm_config := llm_config a;
     tools := tools a ++ [nm]; function_map := function_map a |}.

Definition register_for_execution (nm : string) (f : pyfunction) (a : Agent) : Agent :=
  {| name := name a; llm_config := llm_config a;
     tools := tools a; function_map := <[nm := f]> (function_map a) |}.

Definition update_var (v : agent_var) (f : Agent -> Agent) (g : Globals) : Globals :=
  fun w => if decide (w = v) then f (g w) else g w.

Definition register_function (f : pyfunction) (caller executor : agent_var)
    (nm : string) (g : Globals) : Globals :=
  update_var executor (register_for_execution nm f)
    (update_var caller (register_for_llm nm) g).

(** Cell 7: the three registrations of [read_txt]. *)
Definition cell7 : Globals :=
  register_function read_txt_fn skills_extractor user_proxy "read_txt_cv_skills"
    (register_function read_txt_fn courses_recommender user_proxy "read_txt_courses"
       (register_function read_txt_fn cv_analyser user_proxy "read_txt_cv_analyse"
          cell5)).

(** Cell 9: [autogen.GroupChat(agents=[...], messages=[], ...)]. *)
Definition the_groupchat : GroupChat :=
  {| agents := [cell7 user_proxy; cell7 cv_analyser; cell7 skills_extractor;
                cell7 courses_recommender; cell7 resolution_checker];
     messages := [] |}.

(** The configured group chat after the framework appended [msgs]. *)
Definition chat_with (msgs : list message) : GroupChat :=
  {| agents := agents the_groupchat; messages := msgs |}.

(** [a] is registered as executor of the function [f]. *)
Definition executes (f : pyfunction) (a : Agent) : bool :=
  List.existsb (fun kv => bool_decide (kv.2 = f)) (map_to_list (function_map a)).

(** ** Cell 6: the file-reading tool

    The operating system is a map from paths to nodes, the codec of the
    locale's default encoding and a count of the file objects that are
    open.  A regular file holds bytes; text is what the text layer of
    [open(path, "r")] makes of them. *)

Inductive node : Type :=
| RegularFile (bytes : string)
| Directory
| Unreadable.

Record OS : Type := {
  nodes : gmap string node;
  decode : string -> option string;
  open_files : nat
}.

Definition IO (A : Type) : Type := OS -> result A * OS.

#[global] Instance IO_ret : MRet IO := fun A a os => (Ok a, os).
#[global] Instance IO_bind : MBind IO := fun A B f c os =>
  match c os with
  | (Ok a, os1) => f a os1
  | (Raise e, os1) => (Raise e, os1)
  end.

Record file_object : Type := {
  raw : string;
  position : nat
}.

(** [open(path, "r")]: text mode, default encoding, default newline
    handling. *)
Definition py_open (path : string) : IO file_object := fun os =>
  match nodes os !! path with
  | None => (Raise FileNotFoundError, os)
  | Some Directory => (Raise IsADirectoryError, os)
  | Some Unreadable => (Raise PermissionError, os)
  | Some (RegularFile bytes) =>
      (Ok {| raw := bytes; position := 0 |},
       {| nodes := nodes os; decode := decode os;
          open_files := S (open_files os) |})
  end.

Fixpoint string_drop (n : nat) (s : string) : string :=
  match n, s with
  | S n', String _ s' => string_drop n' s'
  | _, _ => s
  end.

Definition CR : ascii := "013"%char.
Definition LF : ascii := "010"%char.

(** Universal newlines, the default of text mode: on input the line
    endings CR LF and CR become LF. *)
Fixpoint universal_newlines (s : string) : string :=
  match s with
  | EmptyString => EmptyString
  | String c rest =>
      if Ascii.eqb c CR then
        match rest with
        | String d rest' =>
            if Ascii.eqb d LF then String LF (universal_newlines rest')
            else String LF (universal_newlines rest)
        | EmptyString => String LF EmptyString
        end
      else String c (universal_newlines rest)
  end.

(** [file.read()] in text mode: the bytes are decoded with the default
    encoding, line endings are translated, and everything from the
    current position to the end is returned. *)
Definition file_read (f : file_object) : IO string := fun os =>
  match decode os (raw f) with
  | Some text => (Ok (string_drop (position f) (universal_newlines text)), os)
  | None => (Raise UnicodeDecodeError, os)
  end.

Definition file_close (f : file_object) : IO unit := fun os =>
  (Ok tt, {| nodes := nodes os; decode := decode os;
             open_files := pred (open_files os) |}).

(** [with cm as x: body]: the file is closed whether the body returns or
    raises, and an exception of the body is passed on. *)
Definition with_open {A} (cm : IO file_object) (body : file_object -> IO A) : IO A :=
  fun os =>
    match cm os with
    | (Raise e, os1) => (Raise e, os1)
    | (Ok f, os1) =>
        let '(r, os2) := body f os1 in
        let '(_, os3) := file_close f os2 in
        (r, os3)
    end.

Definition read_txt (path : string) : IO string :=
  with_open (py_open path) (fun file => file_read file).

(** The codec of an ASCII locale: bytes below 128 stand for themselves,
    any other byte makes decoding fail. *)
Fixpoint is_ascii (s : string) : bool :=
  match s with
  | EmptyString => true
  | String c rest => (nat_of_ascii c <? 128)%nat && is_ascii rest
  end.

Definition ascii_codec (bytes : string) : option string :=
  if is_ascii bytes then Some bytes else None.

(** *** A recorded run

    The transcript printed under cell 10: the user asks for courses, the
    courses recommender suggests a tool call, the user proxy executes it,
    the recommender answers and the resolution checker closes. *)

Definition say (speaker content : string) : message :=
  {[ "name" := VStr speaker; "role" := VStr "user"; "content" := VStr content ]}.

Definition suggest_tool_call (speaker tool path : string) : message :=
  {[ "name" := VStr speaker; "role" := VStr "assistant";
     "content" := VStr EmptyString;
     "tool_calls" :=
       VList [VDict [("type", VStr "function");
                     ("function", VDict [("name", VStr tool);
                                         ("arguments", VDict [("path", VStr path)])])]] ]}.

Definition msg_request : message :=
  say "User" "Recommend courses for the profile data/cv.txt".
Definition msg_tool_call : message :=
  suggest_tool_call "Courses recommender" "read_txt_courses" "data/courses.txt".
Definition msg_tool_response : message :=
  say "User" "Machine Learning (Coursera), Deep Learning Specialization (Coursera)".
Definition msg_courses : message :=
  say "Courses recommender" "Recommended: Deep Learning Specialization".
Definition msg_analysis : message :=
  say "CV Analyser" "Senior AI engineer, MSc in Artificial Intelligence".
Definition msg_continue : message :=
  say "Resolution Checker Agent" "CONTINUE".
Definition msg_final : message :=
  say "Resolution Checker Agent" "TERMINATE. Recommended courses: Deep Learning".

Definition state (speaker : agent_var) (msgs : list message) : Store :=
  {| last_speaker := cell7 speaker; groupchat := chat_with msgs |}.

(** The checker answered CONTINUE after the CV analyser's turn. *)
Definition checker_turn : Store :=
  state resolution_checker [msg_request; msg_analysis; msg_continue].

Definition disk : OS :=
  {| nodes := {[ "data/cv.txt" := RegularFile "Daniel Puente Viejo";
                 "data/courses.txt" := RegularFile "Machine Learning (Coursera)";
                 "data" := Directory;
                 "data/cv.pdf" := RegularFile (String "226"%char "PDF") ]};
     decode := ascii_codec;
     open_files := 0 |}.

(** A file written with Windows line endings: the bytes [a CR LF b]. *)
Definition crlf_bytes : string :=
  String "a"%char (String CR (String LF (String "b"%char EmptyString))).

Definition crlf_disk : OS :=
  {| nodes := {[ "data/notes.txt" := RegularFile crlf_bytes ]};
     decode := ascii_codec;
     open_files := 0 |}.

(** ** Cells 11 and 12: reading the chat history *)

(** [[x['name'] for x in chat_history]]: the comprehension visits the
    messages from left to right and stops at the first missing key. *)
Fixpoint agent_order (chat_history : list message) : result (list value) :=
  match chat_history with
  | [] => Ok []
  | x :: rest =>
      n ← dict_item x "name";
      names ← agent_order rest;
      mret (n :: names)
  end.

(** [chat_history[-1]['content']]. *)
Definition last_result (chat_history : list message) : result value :=
  m ← list_item chat_history (-1);
  dict_item m "content".

(** The chat history the notebook prints under cell 10. *)
Definition recorded_run : list message :=
  [msg_request; msg_tool_call; msg_tool_response; msg_courses; msg_final].

(** Every speaker recorded in the transcript is an agent of the chat. *)
Definition speakers_known (ags : list Agent) (msgs : list message) : Prop :=
  Forall (fun m => exists a, a ∈ ags /\ speaker_of m = Some (name a)) msgs.

(** Two messages whose speaker entry is unusual: a name in another case
    than the agent's, and a name that is not a string. *)
Definition msg_lower_case : message :=
  say "cv analyser" "Senior AI engineer".
Definition msg_numbered : message :=
  {[ "name" := VInt 7; "content" := VStr "Senior AI engineer" ]}.
Definition msg_anonymous : message :=
  {[ "name" := VStr EmptyString; "content" := VStr "Senior AI engineer" ]}.

(** ** Facts about the string operations *)

Section string_facts.

Lemma starts_with_spec needle hay :
  starts_with needle hay = true <-> exists post, hay = (needle ++ post)%string.
Proof.
  revert hay. induction needle as [|a needle IH]; intros hay; simpl.
  - split; [intros _; by exists hay | done].
  - destruct hay as [|b hay].
    + split; [done | intros [post Hp]; discriminate Hp].
    + rewrite andb_true_iff, IH, Ascii.eqb_eq. split.
      * intros [-> [post ->]]. by exists post.
      * intros [post Hp]. injection Hp as -> ->. eauto.
Qed.

Lemma str_in_spec needle hay :
  str_in needle hay = true <-> exists pre post, hay = (pre ++ needle ++ post)%string.
Proof.
  induction hay as [|b hay IH]; simpl; rewrite orb_true_iff, starts_with_spec.
  - split.
    + intros [[post Hp]|?]; [|done]. by exists EmptyString, post.
    + intros [[|c pre] [post Hp]]; [left; by exists post | discriminate Hp].
  - rewrite IH. split.
    + intros [[post Hp]|(pre & post & Hp)].
      * by exists EmptyString, post.
      * exists (String b pre), post. simpl. by rewrite Hp.
    + intros [[|c pre] [post Hp]].
      * left. by exists post.
      * right. injection Hp as -> ->. by exists pre, post.
Qed.

Lemma list_in_spec x l : list_in x l = true <-> x ∈ l.
Proof.
  unfold list_in. rewrite existsb_exists, list_elem_of_In. split.
  - intros (y & Hy & Heq). apply String.eqb_eq in Heq. by subst.
  - intros Hx. exists x. split; [done | apply String.eqb_refl].
Qed.

End string_facts.



(** ** Facts about Python's list indexing and dictionaries *)

Section python_facts.
Context {A : Type}.
Implicit Types (l : list A) (x y : A).

Lemma list_item_nil (i : Z) : list_item (@nil A) i = Raise IndexError.
Proof.
  unfold list_item. simpl.
  destruct (i <? 0)%Z; destruct (_ || _); reflexivity.
Qed.

(** Counting from the end: [l[-k]] is the [k]-th element from the right. *)
Lemma list_item_from_end l1 l2 x :
  list_item (l1 ++ x :: l2) (- Z.of_nat (S (List.length l2))) = Ok x.
Proof.
  unfold list_item. rewrite length_app. cbn [List.length].
  destruct (Z.ltb_spec (- Z.of_nat (S (List.length l2))) 0) as [_|?]; [|lia].
  replace (- Z.of_nat (S (List.length l2))
           + Z.of_nat (List.length l1 + S (List.length l2)))%Z
    with (Z.of_nat (List.length l1)) by lia.
  destruct (Z.ltb_spec (Z.of_nat (List.length l1)) 0) as [?|_]; [lia|].
  destruct (Z.leb_spec (Z.of_nat (List.length l1 + S (List.length l2)))
              (Z.of_nat (List.length l1))) as [?|_]; [lia|].
  simpl. rewrite Nat2Z.id, list_lookup_middle by done. reflexivity.
Qed.

Lemma list_item_last l x : list_item (l ++ [x]) (-1) = Ok x.
Proof. exact (list_item_from_end l [] x). Qed.

Lemma list_item_last2 l y x : list_item (l ++ [y; x]) (-1) = Ok x.
Proof.
  replace (l ++ [y; x]) with ((l ++ [y]) ++ [x]) by by rewrite <- app_assoc.
  apply list_item_last.
Qed.

Lemma list_item_penultimate l y x : list_item (l ++ [y; x]) (-2) = Ok y.
Proof. exact (list_item_from_end l [x] y). Qed.

Lemma next_where_Ok (p : A -> bool) l x :
  next_where p l = Ok x -> x ∈ l /\ p x = true.
Proof.
  unfold next_where. destruct (find p l) as [y|] eqn:Hf; [|done].
  intros [= ->]. apply find_some in Hf as [Hin Hp].
  by rewrite list_elem_of_In.
Qed.

Lemma next_where_exists (p : A -> bool) l x :
  x ∈ l -> p x = true -> exists y, next_where p l = Ok y.
Proof.
  intros Hin Hp. unfold next_where.
  destruct (find p l) as [y|] eqn:Hf; [by exists y|].
  apply list_elem_of_In in Hin. by rewrite (find_none _ _ Hf x Hin) in Hp.
Qed.

End python_facts.

Lemma dict_truthy_lookup (d : message) k v : d !! k = Some v -> dict_truthy d = true.
Proof.
  intros Hk. unfold dict_truthy.
  destruct (Nat.eqb_spec (size d) 0) as [Hz|]; [|done].
  apply map_size_empty_iff in Hz. subst d. by rewrite lookup_empty in Hk.
Qed.

Lemma speaker_of_Some (m : message) n :
  speaker_of m = Some n <-> m !! "name" = Some (VStr n).
Proof.
  unfold speaker_of. destruct (m !! "name") as [[]|]; split; congruence.
Qed.

(** ** The shape of a run of the callback *)

Section runs.
Implicit Types (σ : Store) (m pen : message).

Lemma run_empty σ :
  messages (groupchat σ) = [] ->
  custom_speaker_selection σ = (Raise IndexError, σ).
Proof.
  intros H. unfold custom_speaker_selection, mbind, M_bind, gets, lift.
  rewrite H. reflexivity.
Qed.

Lemma run_single σ m :
  messages (groupchat σ) = [m] ->
  custom_speaker_selection σ
  = routing_rules m (lower (name (last_speaker σ))) VNone σ.
Proof.
  intros H. unfold custom_speaker_selection, mbind, M_bind, gets, lift.
  rewrite H. reflexivity.
Qed.

Lemma run_named σ earlier pen m v :
  messages (groupchat σ) = earlier ++ [pen; m] ->
  pen !! "name" = Some v ->
  custom_speaker_selection σ
  = routing_rules m (lower (name (last_speaker σ))) v σ.
Proof.
  intros H Hv.
  unfold custom_speaker_selection, mbind, M_bind, gets, lift, fmap, M_fmap.
  rewrite H, list_item_last2, length_app.
  replace (1 <? List.length earlier + List.length [pen; m])%nat with true
    by (symmetry; apply Nat.ltb_lt; simpl; lia).
  cbv beta iota. rewrite H, list_item_penultimate.
  rewrite (dict_truthy_lookup _ _ _ Hv). unfold dict_item. rewrite Hv.
  reflexivity.
Qed.

Lemma run_unnamed σ earlier pen m :
  messages (groupchat σ) = earlier ++ [pen; m] ->
  pen !! "name" = None ->
  custom_speaker_selection σ
  = if dict_truthy pen then (Raise KeyError, σ)
    else routing_rules m (lower (name (last_speaker σ))) VNone σ.
Proof.
  intros H Hv.
  unfold custom_speaker_selection, mbind, M_bind, gets, lift, fmap, M_fmap.
  rewrite H, list_item_last2, length_app.
  replace (1 <? List.length earlier + List.length [pen; m])%nat with true
    by (symmetry; apply Nat.ltb_lt; simpl; lia).
  cbv beta iota. rewrite H, list_item_penultimate.
  destruct (dict_truthy pen); [|reflexivity].
  unfold dict_item. rewrite Hv. reflexivity.
Qed.

End runs.

(** ** The rule chain, one rule at a time *)

Section rules.
Implicit Types (σ : Store) (m pen : message) (lsn : string) (psn : value).

Lemma transcript_shape (msgs : list message) :
  msgs = [] \/ (exists m, msgs = [m])
  \/ exists earlier pen m, msgs = earlier ++ [pen; m].
Proof.
  destruct msgs as [|m0 msgs _] using rev_ind; [by left|right].
  destruct msgs as [|pen earlier _] using rev_ind.
  - left. by exists m0.
  - right. exists earlier, pen, m0. by rewrite <- app_assoc.
Qed.

Lemma route_back_frame lsn psn σ : (route_back_condition lsn psn σ).2 = σ.
Proof.
  unfold route_back_condition, mbind, M_bind, lift, mret, M_ret.
  destruct (lsn =? "user")%string; [|done].
  destruct (truthy psn); [|done]. simpl. by destruct (call_lower psn).
Qed.

Lemma routing_rules_frame m lsn psn σ : (routing_rules m lsn psn σ).2 = σ.
Proof.
  unfold routing_rules, mbind, M_bind, gets, lift, fmap, M_fmap, mret, M_ret.
  destruct (truthy _); [by destruct (next_where _ _)|].
  pose proof (route_back_frame lsn psn σ) as Hb.
  destruct (route_back_condition lsn psn σ) as [[[]|e] σ1]; simpl in Hb; subst σ1;
    [by destruct (next_where _ _)| |done].
  destruct (list_in _ _); [by destruct (next_where _ _)|done].
Qed.

Lemma rule_tool_call m lsn psn σ u :
  has_tool_call m ->
  next_where (fun a => String.eqb (name a) "User") (agents (groupchat σ)) = Ok u ->
  routing_rules m lsn psn σ = (Ok (Speaker u), σ).
Proof.
  intros Htc Hu.
  unfold routing_rules, mbind, M_bind, gets, lift, fmap, M_fmap.
  unfold has_tool_call in Htc. by rewrite Htc, Hu.
Qed.

Lemma rule_route_back m lsn n σ a :
  ~ has_tool_call m ->
  lsn = "user" ->
  n <> EmptyString ->
  lower n ∉ ["user"; "resolution checker agent"] ->
  next_where (fun b => str_eq_value (name b) (VStr n)) (agents (groupchat σ)) = Ok a ->
  routing_rules m lsn (VStr n) σ = (Ok (Speaker a), σ).
Proof.
  intros Htc -> Hn Hl Ha.
  unfold routing_rules, route_back_condition, mbind, M_bind, gets, lift, fmap,
    M_fmap, mret, M_ret.
  apply not_true_is_false in Htc. rewrite Htc, String.eqb_refl.
  assert (truthy (VStr n) = true) as ->.
  { simpl. by destruct (String.eqb_spec n EmptyString). }
  assert (list_in (lower n) ["user"; "resolution checker agent"] = false) as Hin.
  { destruct (list_in _ _) eqn:Hin; [|done]. by apply list_in_spec in Hin. }
  cbn [call_lower]. rewrite Hin. cbn [negb]. by rewrite Ha.
Qed.

Lemma rule_check m lsn psn σ c :
  ~ has_tool_call m ->
  lsn ∈ agents_to_check ->
  next_where (fun a => String.eqb (name a) "Resolution Checker Agent")
    (agents (groupchat σ)) = Ok c ->
  routing_rules m lsn psn σ = (Ok (Speaker c), σ).
Proof.
  intros Htc Hl Hc.
  unfold routing_rules, route_back_condition, mbind, M_bind, gets, lift, fmap,
    M_fmap, mret, M_ret.
  apply not_true_is_false in Htc. rewrite Htc.
  assert ((lsn =? "user")%string = false) as ->.
  { apply String.eqb_neq. intros ->. apply list_in_spec in Hl. discriminate Hl. }
  apply list_in_spec in Hl. by rewrite Hl, Hc.
Qed.

Lemma rule_auto m lsn psn σ :
  ~ has_tool_call m ->
  (route_back_condition lsn psn σ).1 = Ok false ->
  lsn ∉ agents_to_check ->
  routing_rules m lsn psn σ = (Ok Auto, σ).
Proof.
  intros Htc Hb Hl.
  unfold routing_rules, mbind, M_bind, mret, M_ret.
  apply not_true_is_false in Htc. rewrite Htc.
  pose proof (route_back_frame lsn psn σ) as Hf.
  destruct (route_back_condition lsn psn σ) as [r σ1]. simpl in Hb, Hf. subst.
  destruct (list_in lsn agents_to_check) eqn:Hin; [|reflexivity].
  by apply list_in_spec in Hin.
Qed.

Lemma route_back_None lsn σ : route_back_condition lsn VNone σ = (Ok false, σ).
Proof. unfold route_back_condition. by destruct (lsn =? "user")%string. Qed.

(** In a recorded transcript the first statements of the callback never
    raise: they hand the last message and the penultimate speaker's name
    to the rule chain. *)
Lemma run_recorded σ earlier m :
  messages (groupchat σ) = earlier ++ [m] ->
  recorded (messages (groupchat σ)) ->
  exists psn,
    custom_speaker_selection σ
    = routing_rules m (lower (name (last_speaker σ))) psn σ
    /\ ((earlier = [] /\ psn = VNone)
        \/ exists earlier' pen n,
             earlier = earlier' ++ [pen] /\ speaker_of pen = Some n
             /\ psn = VStr n).
Proof.
  intros H Hrec.
  destruct earlier as [|pen earlier' _] using rev_ind.
  - exists VNone. split; [by apply run_single|by left].
  - assert (is_Some (speaker_of pen)) as [n Hn].
    { rewrite H in Hrec. apply Forall_app in Hrec as [Hrec _].
      apply Forall_app in Hrec as [_ Hrec]. by inversion Hrec. }
    exists (VStr n). split.
    + apply (run_named σ earlier' pen m); [by rewrite H, <- app_assoc|].
      by apply speaker_of_Some.
    + right. by exists earlier', pen, n.
Qed.

Lemma named_agent_found (nm : string) (ags : list Agent) :
  (exists a, a ∈ ags /\ name a = nm) ->
  exists u, next_where (fun a => String.eqb (name a) nm) ags = Ok u
            /\ u ∈ ags /\ name u = nm.
Proof.
  intros (a & Hin & Hnm).
  destruct (next_where_exists (fun a => String.eqb (name a) nm) ags a Hin)
    as [u Hu]; [by apply String.eqb_eq|].
  exists u. split; [done|].
  apply next_where_Ok in Hu as [? Heq]. by apply String.eqb_eq in Heq.
Qed.

Lemma selection_frame σ : (custom_speaker_selection σ).2 = σ.
Proof.
  destruct (transcript_shape (messages (groupchat σ)))
    as [H|[[m H]|(earlier & pen & m & H)]].
  - by rewrite run_empty.
  - rewrite (run_single _ _ H). apply routing_rules_frame.
  - destruct (pen !! "name") as [v|] eqn:Hv.
    + rewrite (run_named _ _ _ _ _ H Hv). apply routing_rules_frame.
    + rewrite (run_unnamed _ _ _ _ H Hv).
      destruct (dict_truthy pen); [done|apply routing_rules_frame].
Qed.

Lemma routing_rules_member m lsn psn σ a :
  (routing_rules m lsn psn σ).1 = Ok (Speaker a) -> a ∈ agents (groupchat σ).
Proof.
  unfold routing_rules, mbind, M_bind, gets, lift, fmap, M_fmap, mret, M_ret.
  destruct (truthy _).
  { destruct (next_where _ _) eqn:Hn; simpl; [|done].
    intros [= ->]. by apply next_where_Ok in Hn as [? _]. }
  pose proof (route_back_frame lsn psn σ) as Hb.
  destruct (route_back_condition lsn psn σ) as [[[]|e] σ1]; simpl in Hb; subst σ1.
  - destruct (next_where _ _) eqn:Hn; simpl; [|done].
    intros [= ->]. by apply next_where_Ok in Hn as [? _].
  - destruct (list_in _ _); [|done].
    destruct (next_where _ _) eqn:Hn; simpl; [|done].
    intros [= ->]. by apply next_where_Ok in Hn as [? _].
  - done.
Qed.

Lemma selection_member σ a :
  (custom_speaker_selection σ).1 = Ok (Speaker a) -> a ∈ agents (groupchat σ).
Proof.
  destruct (transcript_shape (messages (groupchat σ)))
    as [H|[[m H]|(earlier & pen & m & H)]].
  - by rewrite run_empty.
  - rewrite (run_single _ _ H). apply routing_rules_member.
  - destruct (pen !! "name") as [v|] eqn:Hv.
    + rewrite (run_named _ _ _ _ _ H Hv). apply routing_rules_member.
    + rewrite (run_unnamed _ _ _ _ H Hv).
      destruct (dict_truthy pen); [done|apply routing_rules_member].
Qed.

End rules.

(** ** The configured group chat *)

Section configured.

Lemma participants_names :
  map name (agents the_groupchat)
  = ["User"; "CV Analyser"; "Skills Extractor"; "Courses recommender";
     "Resolution Checker Agent"].
Proof. reflexivity. Qed.

Lemma participant_in_chat (v : agent_var) (msgs : list message) :
  cell7 v ∈ agents (chat_with msgs).
Proof. apply list_elem_of_In. destruct v; simpl; auto 6. Qed.

Lemma chat_has (v : agent_var) (msgs : list message) :
  exists a, a ∈ agents (chat_with msgs) /\ name a = name (cell7 v).
Proof. exists (cell7 v). split; [apply participant_in_chat|done]. Qed.

Lemma recorded_cons (m : message) (msgs : list message) n :
  speaker_of m = Some n -> recorded msgs -> recorded (m :: msgs).
Proof. intros Hn Hr. constructor; [by exists n|done]. Qed.

Lemma recorded_nil : recorded [].
Proof. constructor. Qed.

End configured.

(** ** The run printed under cell 10, replayed

    The notebook's output shows the speakers chosen in one conversation;
    the callback, evaluated on the transcript at each turn, agrees with
    it. *)

Section replay.

(** First turn: no rule applies, the framework's model chooses. *)
Example replay_first_turn :
  custom_speaker_selection (state user_proxy [msg_request])
  = (Ok Auto, state user_proxy [msg_request]).
Proof. reflexivity. Qed.

(** "Next speaker: User", after the suggested tool call. *)
Example replay_tool_call :
  (custom_speaker_selection
     (state courses_recommender [msg_request; msg_tool_call])).1
  = Ok (Speaker (cell7 user_proxy)).
Proof. reflexivity. Qed.

(** "Next speaker: Courses recommender", after the tool's response. *)
Example replay_tool_response :
  (custom_speaker_selection
     (state user_proxy [msg_request; msg_tool_call; msg_tool_response])).1
  = Ok (Speaker (cell7 courses_recommender)).
Proof. reflexivity. Qed.

(** "Next speaker: Resolution Checker Agent", after the recommendation. *)
Example replay_answer :
  (custom_speaker_selection
     (state courses_recommender
        [msg_request; msg_tool_call; msg_tool_response; msg_courses])).1
  = Ok (Speaker (cell7 resolution_checker)).
Proof. reflexivity. Qed.

(** A penultimate message without a speaker makes line 334 raise. *)
Example unrecorded_penultimate :
  (custom_speaker_selection
     (state courses_recommender
        [{[ "content" := VStr "hello" ]}; msg_tool_call])).1
  = Raise KeyError.
Proof. reflexivity. Qed.

(** A group chat without an agent named "User" exhausts the generator. *)
Example no_user_agent :
  (custom_speaker_selection
     {| last_speaker := cell7 courses_recommender;
        groupchat := {| agents := [cell7 courses_recommender];
                        messages := [msg_request; msg_tool_call] |} |}).1
  = Raise StopIteration.
Proof. reflexivity. Qed.

(** The store can be written to: the monad does not make every
    computation an observer. *)
Example puts_modifies :
  (puts (fun σ => {| last_speaker := last_speaker σ;
                     groupchat := chat_with [] |}) checker_turn).2
  <> checker_turn.
Proof. vm_compute. discriminate. Qed.

End replay.

(** ** The termination predicate *)

(** C1: when the content of a message is a string [s], the predicate
    returns, and it returns true exactly when the lowercased [s] contains
    "terminate" somewhere: as a prefix, a suffix or in the middle of a
    word. *)
Theorem termination_message_iff (msg : message) (s : string) :
  msg !! "content" = Some (VStr s) ->
  exists b, termination_message msg = Ok b
    /\ (b = true <->
        exists pre post, lower s = (pre ++ "terminate" ++ post)%string).
Proof.
  intros Hc. exists (str_in "terminate" (lower s)). split.
  - unfold termination_message, dict_get. rewrite Hc. reflexivity.
  - apply str_in_spec.
Qed.

Lemma termination_message_iff_witness :
  exists b, termination_message msg_final = Ok b
    /\ (b = true <->
        exists pre post,
          lower "TERMINATE. Recommended courses: Deep Learning"
          = (pre ++ "terminate" ++ post)%string).
Proof.
  apply (termination_message_iff msg_final
           "TERMINATE. Recommended courses: Deep Learning").
  reflexivity.
Defined.

Example terminate_upper_case : termination_message msg_final = Ok true.
Proof. reflexivity. Qed.

Example terminate_inside_a_word :
  termination_message (say "CV Analyser" "The contract was exTerminated") = Ok true.
Proof. reflexivity. Qed.

Example continue_does_not_terminate : termination_message msg_continue = Ok false.
Proof. reflexivity. Qed.

(** C8: without a "content" key the predicate returns false; with the
    content [None] the call of [lower] raises; and the predicate returns a
    value exactly on the messages whose content is absent or a string. *)
Theorem termination_message_domain (msg : message) :
  (msg !! "content" = None -> termination_message msg = Ok false)
  /\ (msg !! "content" = Some VNone ->
      termination_message msg = Raise AttributeError)
  /\ (returns (termination_message msg) <->
      msg !! "content" = None \/ exists s, msg !! "content" = Some (VStr s)).
Proof.
  unfold termination_message, dict_get, returns.
  destruct (msg !! "content") as [v|] eqn:Hc; simpl.
  - split; [done|]. split; [by intros [= ->]|].
    destruct v; simpl;
      (split;
       [ intros [? Hb]; first [discriminate Hb | right; by eexists]
       | intros [Hn|[? Hs]]; first [discriminate | by eexists] ]).
  - split; [done|]. split; [done|]. split; [by left|by eexists].
Qed.

Lemma termination_message_domain_witness :
  termination_message {[ "role" := VStr "user" ]} = Ok false
  /\ termination_message {[ "content" := VNone ]} = Raise AttributeError.
Proof.
  split.
  - apply (proj1 (termination_message_domain {[ "role" := VStr "user" ]})).
    reflexivity.
  - apply (proj1 (proj2 (termination_message_domain {[ "content" := VNone ]}))).
    reflexivity.
Defined.

(** ** The speaker-selection callback *)

(** C2: in a conversation state (a recorded transcript of a group chat that
    has an agent named "User") whose last message carries a non-empty
    "tool_calls" field, the callback returns an agent of the group chat
    named "User", whoever spoke last and whatever the earlier messages
    are; nothing is modified. *)
Theorem tool_call_routes_to_user (σ : Store) (earlier : list message) (m : message) :
  messages (groupchat σ) = earlier ++ [m] ->
  recorded (messages (groupchat σ)) ->
  (exists a, a ∈ agents (groupchat σ) /\ name a = "User") ->
  has_tool_call m ->
  exists u, custom_speaker_selection σ = (Ok (Speaker u), σ)
            /\ u ∈ agents (groupchat σ) /\ name u = "User".
Proof.
  intros H Hrec Hu Htc.
  destruct (run_recorded σ earlier m H Hrec) as (psn & -> & _).
  apply named_agent_found in Hu as (u & Hu & Hin & Hnm).
  exists u. split; [|done]. by apply rule_tool_call.
Qed.

Lemma tool_call_routes_to_user_witness :
  exists u,
    custom_speaker_selection (state courses_recommender [msg_request; msg_tool_call])
    = (Ok (Speaker u), state courses_recommender [msg_request; msg_tool_call])
    /\ u ∈ agents (chat_with [msg_request; msg_tool_call]) /\ name u = "User".
Proof.
  apply (tool_call_routes_to_user
           (state courses_recommender [msg_request; msg_tool_call])
           [msg_request] msg_tool_call).
  - reflexivity.
  - apply (recorded_cons _ _ "User"); [reflexivity|].
    apply (recorded_cons _ _ "Courses recommender"); [reflexivity|].
    apply recorded_nil.
  - apply (chat_has user_proxy).
  - reflexivity.
Defined.

(** C3, as amended: when the last speaker is the User (its name lowercases
    to "user"), the last message carries no tool call and the penultimate
    message was produced by one of the three task agents, the callback
    returns the agent of the group chat that bears the penultimate
    speaker's name. *)
Theorem route_back_after_user (σ : Store) (earlier : list message)
    (pen m : message) (n : string) :
  messages (groupchat σ) = earlier ++ [pen; m] ->
  ~ has_tool_call m ->
  speaker_of pen = Some n ->
  n ∈ task_agents ->
  lower (name (last_speaker σ)) = "user" ->
  (exists a, a ∈ agents (groupchat σ) /\ name a = n) ->
  exists a, custom_speaker_selection σ = (Ok (Speaker a), σ)
            /\ a ∈ agents (groupchat σ) /\ name a = n.
Proof.
  intros H Htc Hn Htask Hlast Ha.
  apply speaker_of_Some in Hn. rewrite (run_named σ earlier pen m _ H Hn).
  apply named_agent_found in Ha as (a & Ha & Hin & Hnm).
  exists a. split; [|done].
  apply rule_route_back; [done|done| | |exact Ha];
    apply list_elem_of_In in Htask; simpl in Htask;
    destruct Htask as [<-|[<-|[<-|[]]]]; try done;
    rewrite <- list_in_spec; by vm_compute.
Qed.

Lemma route_back_after_user_witness :
  exists a,
    custom_speaker_selection
      (state user_proxy [msg_request; msg_tool_call; msg_tool_response])
    = (Ok (Speaker a),
       state user_proxy [msg_request; msg_tool_call; msg_tool_response])
    /\ a ∈ agents (chat_with [msg_request; msg_tool_call; msg_tool_response])
    /\ name a = "Courses recommender".
Proof.
  apply (route_back_after_user
           (state user_proxy [msg_request; msg_tool_call; msg_tool_response])
           [msg_request] msg_tool_call msg_tool_response "Courses recommender").
  - reflexivity.
  - unfold has_tool_call. vm_compute. discriminate.
  - reflexivity.
  - apply list_elem_of_In. simpl. auto.
  - reflexivity.
  - apply (chat_has courses_recommender).
Defined.

(** C3, as stated, fails: after the CV analyser's answer the resolution
    checker says CONTINUE; the last message has no tool call and the
    penultimate speaker is a task agent, yet the callback returns 'auto',
    because the last speaker is not the User. *)
Lemma route_back_needs_user_turn :
  messages (groupchat checker_turn) = [msg_request] ++ [msg_analysis; msg_continue]
  /\ ~ has_tool_call msg_continue
  /\ speaker_of msg_analysis = Some "CV Analyser"
  /\ "CV Analyser" ∈ task_agents
  /\ custom_speaker_selection checker_turn = (Ok Auto, checker_turn)
  /\ (custom_speaker_selection checker_turn).1 <> Ok (Speaker (cell7 cv_analyser)).
Proof.
  split; [reflexivity|]. split; [unfold has_tool_call; vm_compute; discriminate|].
  split; [reflexivity|]. split; [apply list_elem_of_In; simpl; auto|].
  split; [reflexivity|]. vm_compute. discriminate.
Qed.

(** C4: in a conversation state whose last message carries no tool call
    and whose last speaker's lowercased name is "cv analyser", "skills
    extractor" or "courses recommender", the callback returns an agent of
    the group chat named "Resolution Checker Agent". *)
Theorem task_agent_routes_to_checker (σ : Store) (earlier : list message) (m : message) :
  messages (groupchat σ) = earlier ++ [m] ->
  recorded (messages (groupchat σ)) ->
  (exists a, a ∈ agents (groupchat σ) /\ name a = "Resolution Checker Agent") ->
  ~ has_tool_call m ->
  lower (name (last_speaker σ))
    ∈ ["cv analyser"; "skills extractor"; "courses recommender"] ->
  exists c, custom_speaker_selection σ = (Ok (Speaker c), σ)
            /\ c ∈ agents (groupchat σ) /\ name c = "Resolution Checker Agent".
Proof.
  intros H Hrec Hc Htc Hl.
  destruct (run_recorded σ earlier m H Hrec) as (psn & -> & _).
  apply named_agent_found in Hc as (c & Hc & Hin & Hnm).
  exists c. split; [|done]. by apply rule_check.
Qed.

Lemma task_agent_routes_to_checker_witness :
  exists c,
    custom_speaker_selection
      (state courses_recommender
         [msg_request; msg_tool_call; msg_tool_response; msg_courses])
    = (Ok (Speaker c),
       state courses_recommender
         [msg_request; msg_tool_call; msg_tool_response; msg_courses])
    /\ c ∈ agents (chat_with
                     [msg_request; msg_tool_call; msg_tool_response; msg_courses])
    /\ name c = "Resolution Checker Agent".
Proof.
  apply (task_agent_routes_to_checker
           (state courses_recommender
              [msg_request; msg_tool_call; msg_tool_response; msg_courses])
           [msg_request; msg_tool_call; msg_tool_response] msg_courses).
  - reflexivity.
  - apply (recorded_cons _ _ "User"); [reflexivity|].
    apply (recorded_cons _ _ "Courses recommender"); [reflexivity|].
    apply (recorded_cons _ _ "User"); [reflexivity|].
    apply (recorded_cons _ _ "Courses recommender"); [reflexivity|].
    apply recorded_nil.
  - apply (chat_has resolution_checker).
  - unfold has_tool_call. vm_compute. discriminate.
  - apply list_elem_of_In. vm_compute. auto.
Defined.

(** C5: in a conversation state where the last message carries no tool
    call, the last speaker is not the User preceded by a speaker other
    than the User and the resolution checker, and the last speaker is not
    one of the three task agents, the callback returns 'auto'. *)
Theorem otherwise_auto (σ : Store) (earlier : list message) (m : message) :
  messages (groupchat σ) = earlier ++ [m] ->
  recorded (messages (groupchat σ)) ->
  ~ has_tool_call m ->
  ~ (lower (name (last_speaker σ)) = "user"
     /\ exists earlier' pen n,
          earlier = earlier' ++ [pen] /\ speaker_of pen = Some n
          /\ lower n ∉ ["user"; "resolution checker agent"]) ->
  lower (name (last_speaker σ)) ∉ agents_to_check ->
  custom_speaker_selection σ = (Ok Auto, σ).
Proof.
  intros H Hrec Htc Hback Hl.
  destruct (run_recorded σ earlier m H Hrec) as (psn & -> & Hpsn).
  apply rule_auto; [done| |done].
  destruct Hpsn as [[_ ->]|(earlier' & pen & n & He & Hn & ->)];
    [by rewrite route_back_None|].
  unfold route_back_condition, mbind, M_bind, lift, mret, M_ret.
  destruct (String.eqb_spec (lower (name (last_speaker σ))) "user") as [Hu|]; [|done].
  destruct (truthy (VStr n)); [|done]. cbn [call_lower].
  destruct (list_in (lower n) _) eqn:Hin; [done|].
  exfalso. apply Hback. split; [done|]. exists earlier', pen, n.
  split; [done|]. split; [done|]. rewrite <- list_in_spec. by rewrite Hin.
Qed.

Lemma otherwise_auto_witness :
  custom_speaker_selection checker_turn = (Ok Auto, checker_turn).
Proof.
  apply (otherwise_auto checker_turn [msg_request; msg_analysis] msg_continue).
  - reflexivity.
  - apply (recorded_cons _ _ "User"); [reflexivity|].
    apply (recorded_cons _ _ "CV Analyser"); [reflexivity|].
    apply (recorded_cons _ _ "Resolution Checker Agent"); [reflexivity|].
    apply recorded_nil.
  - unfold has_tool_call. vm_compute. discriminate.
  - intros [Hu _]. vm_compute in Hu. discriminate Hu.
  - rewrite <- list_in_spec. vm_compute. discriminate.
Defined.

(** C9: on an empty transcript the callback raises [IndexError]; on a
    transcript of exactly one message the penultimate speaker's name is
    [None], the route-back condition is false, and the outcome is that of
    the tool-call rule, the checker rule or 'auto'. *)
Theorem selection_on_short_transcripts (σ : Store) :
  (messages (groupchat σ) = [] ->
   custom_speaker_selection σ = (Raise IndexError, σ))
  /\ (forall m, messages (groupchat σ) = [m] ->
      let lsn := lower (name (last_speaker σ)) in
      custom_speaker_selection σ = routing_rules m lsn VNone σ
      /\ route_back_condition lsn VNone σ = (Ok false, σ)
      /\ (custom_speaker_selection σ).1
         = if truthy (dict_get m "tool_calls" (VStr EmptyString)) then
             Speaker <$> next_where (fun a => String.eqb (name a) "User")
                           (agents (groupchat σ))
           else if list_in lsn agents_to_check then
             Speaker <$> next_where
                           (fun a => String.eqb (name a) "Resolution Checker Agent")
                           (agents (groupchat σ))
           else Ok Auto).
Proof.
  split; [apply run_empty|]. intros m H lsn.
  split; [by apply run_single|]. split; [apply route_back_None|].
  rewrite (run_single σ m H). fold lsn.
  unfold routing_rules, mbind, M_bind, gets, lift, fmap, M_fmap, mret, M_ret.
  destruct (truthy _); [by destruct (next_where _ _)|].
  rewrite route_back_None.
  destruct (list_in _ _); [by destruct (next_where _ _)|done].
Qed.

Lemma selection_on_short_transcripts_witness :
  custom_speaker_selection (state user_proxy [])
  = (Raise IndexError, state user_proxy [])
  /\ custom_speaker_selection (state user_proxy [msg_request])
     = routing_rules msg_request "user" VNone (state user_proxy [msg_request]).
Proof.
  split.
  - apply (proj1 (selection_on_short_transcripts (state user_proxy []))).
    reflexivity.
  - apply (proj2 (selection_on_short_transcripts (state user_proxy [msg_request]))
             msg_request).
    reflexivity.
Defined.

(** C10: a call of the callback leaves the store as it found it (the
    transcript, the list of agents, every agent and the last speaker),
    whether it returns or raises, and a second call returns what the first
    one returned. *)
Theorem selection_is_pure (σ : Store) :
  (custom_speaker_selection σ).2 = σ
  /\ messages (groupchat (custom_speaker_selection σ).2) = messages (groupchat σ)
  /\ agents (groupchat (custom_speaker_selection σ).2) = agents (groupchat σ)
  /\ last_speaker (custom_speaker_selection σ).2 = last_speaker σ
  /\ (r1 ← custom_speaker_selection; r2 ← custom_speaker_selection; mret (r1, r2)) σ
     = ((fun r => (r, r)) <$> custom_speaker_selection) σ.
Proof.
  pose proof (selection_frame σ) as Hf.
  rewrite Hf. repeat (split; [reflexivity|]).
  unfold mbind, M_bind, fmap, M_fmap, mret, M_ret.
  destruct (custom_speaker_selection σ) as [[r|e] σ1] eqn:Hrun; simpl in Hf;
    subst σ1; [|done].
  by rewrite Hrun.
Qed.

(** ** The participants and the tool executor *)

(** C7: the group chat has exactly the five participants User, CV Analyser,
    Skills Extractor, Courses recommender and Resolution Checker Agent;
    the User proxy, and no other participant, is registered as executor of
    [read_txt]; and whatever the transcript and the last speaker, a value
    the callback returns is 'auto' or one of these five agents. *)
Theorem five_participants_one_executor :
  map name (agents the_groupchat)
  = ["User"; "CV Analyser"; "Skills Extractor"; "Courses recommender";
     "Resolution Checker Agent"]
  /\ agents the_groupchat
     = map cell7 [user_proxy; cv_analyser; skills_extractor;
                  courses_recommender; resolution_checker]
  /\ (forall v : agent_var, executes read_txt_fn (cell7 v) = true <-> v = user_proxy)
  /\ List.filter (executes read_txt_fn) (agents the_groupchat) = [cell7 user_proxy]
  /\ forall (speaker : Agent) (msgs : list message) (r : selection),
       (custom_speaker_selection
          {| last_speaker := speaker; groupchat := chat_with msgs |}).1 = Ok r ->
       r = Auto \/ exists v : agent_var, r = Speaker (cell7 v).
Proof.
  split; [reflexivity|]. split; [reflexivity|]. split.
  { intros v. destruct v; vm_compute; split; intros Hv; done. }
  split; [reflexivity|].
  intros speaker msgs [a|] Hr; [right|by left].
  apply selection_member in Hr. simpl in Hr.
  apply list_elem_of_In in Hr. simpl in Hr.
  destruct Hr as [<-|[<-|[<-|[<-|[<-|[]]]]]];
    [by exists user_proxy|by exists cv_analyser|by exists skills_extractor
    |by exists courses_recommender|by exists resolution_checker].
Qed.

Lemma five_participants_one_executor_witness :
  Speaker (cell7 user_proxy) = Auto
  \/ exists v : agent_var, Speaker (cell7 user_proxy) = Speaker (cell7 v).
Proof.
  apply (proj2 (proj2 (proj2 (proj2 five_participants_one_executor)))
           (cell7 courses_recommender) [msg_request; msg_tool_call]).
  reflexivity.
Defined.

(** ** The file-reading tool *)

Section file_tool.

Lemma universal_newlines_without_cr (s : string) :
  str_in (String CR EmptyString) s = false -> universal_newlines s = s.
Proof.
  induction s as [|c s IH]; [done|].
  cbn [str_in starts_with universal_newlines].
  rewrite (Ascii.eqb_sym CR c).
  destruct (Ascii.eqb c CR); [by destruct s|].
  intros Hs. by rewrite (IH Hs).
Qed.

Lemma read_txt_run (os : OS) (path : string) :
  read_txt path os
  = (match nodes os !! path with
     | None => Raise FileNotFoundError
     | Some Directory => Raise IsADirectoryError
     | Some Unreadable => Raise PermissionError
     | Some (RegularFile bytes) =>
         match decode os bytes with
         | Some text => Ok (universal_newlines text)
         | None => Raise UnicodeDecodeError
         end
     end, os).
Proof.
  unfold read_txt, with_open, py_open, file_read, file_close.
  destruct os as [nd dec k]. simpl.
  destruct (nd !! path) as [[bytes| |]|]; simpl; try done.
  by destruct (dec bytes).
Qed.

(** C6, as amended: when the file opens and the read succeeds, [read_txt]
    returns what the text-mode read returned, which is the whole of the
    file's bytes decoded with the default encoding, with the line endings
    CR LF and CR turned into LF, and nothing else done to it; for a file
    without carriage return whose bytes decode to themselves that is
    exactly the contents of the file.  When opening raises, or when the
    read raises, [read_txt] raises that same exception.  In every case
    the file is closed again and the operating system is as before. *)
Theorem read_txt_text_mode (os : OS) (path : string) :
  (forall f os1 s,
     py_open path os = (Ok f, os1) -> (file_read f os1).1 = Ok s ->
     read_txt path os = (Ok s, os)
     /\ exists bytes text,
          nodes os !! path = Some (RegularFile bytes)
          /\ decode os bytes = Some text
          /\ s = universal_newlines text)
  /\ (forall bytes,
        nodes os !! path = Some (RegularFile bytes) ->
        decode os bytes = Some bytes ->
        str_in (String CR EmptyString) bytes = false ->
        read_txt path os = (Ok bytes, os))
  /\ (forall e, (py_open path os).1 = Raise e -> read_txt path os = (Raise e, os))
  /\ (forall f os1 e,
        py_open path os = (Ok f, os1) -> (file_read f os1).1 = Raise e ->
        read_txt path os = (Raise e, os)).
Proof.
  rewrite read_txt_run. unfold py_open, file_read.
  destruct os as [nd dec k]. simpl.
  destruct (nd !! path) as [[bytes| |]|] eqn:Hp; simpl;
    (split; [|split; [|split]]); try (intros; by simplify_eq/=).
  - intros f os1 s [= <- <-]. simpl.
    destruct (dec bytes) as [text|] eqn:Hd; simpl; [|done].
    intros [= <-]. split; [done|]. by exists bytes, text.
  - intros b [= <-] Hd Hcr. by rewrite Hd, universal_newlines_without_cr.
  - intros f os1 e [= <- <-]. simpl.
    destruct (dec bytes); simpl; [done|]. by intros [= <-].
Qed.

Lemma read_txt_text_mode_witness :
  read_txt "data/cv.txt" disk = (Ok "Daniel Puente Viejo", disk)
  /\ read_txt "data/missing.txt" disk = (Raise FileNotFoundError, disk)
  /\ read_txt "data" disk = (Raise IsADirectoryError, disk)
  /\ read_txt "data/cv.pdf" disk = (Raise UnicodeDecodeError, disk).
Proof.
  split.
  { apply (proj1 (proj2 (read_txt_text_mode disk "data/cv.txt"))
             "Daniel Puente Viejo");
      reflexivity. }
  split.
  { apply (proj1 (proj2 (proj2 (read_txt_text_mode disk "data/missing.txt")))).
    reflexivity. }
  split.
  { apply (proj1 (proj2 (proj2 (read_txt_text_mode disk "data")))).
    reflexivity. }
  apply (proj2 (proj2 (proj2 (read_txt_text_mode disk "data/cv.pdf")))
           {| raw := String "226"%char "PDF"; position := 0 |}
           {| nodes := nodes disk; decode := decode disk; open_files := 1 |});
    reflexivity.
Defined.

(** C6, as stated, fails: the file at [data/notes.txt] holds the four
    bytes [a CR LF b]; it opens and the read succeeds, yet [read_txt]
    returns the three characters [a LF b], not the contents of the
    file. *)
Lemma read_txt_translates_newlines :
  nodes crlf_disk !! "data/notes.txt" = Some (RegularFile crlf_bytes)
  /\ read_txt "data/notes.txt" crlf_disk
     = (Ok (String "a"%char (String LF (String "b"%char EmptyString))),
        crlf_disk)
  /\ (read_txt "data/notes.txt" crlf_disk).1 <> Ok crlf_bytes.
Proof.
  split; [reflexivity|]. split; [reflexivity|]. vm_compute. discriminate.
Qed.

End file_tool.

(** ** More about the termination predicate *)

Section termination_more.

Lemma lower_app (s t : string) : lower (s ++ t)%string = (lower s ++ lower t)%string.
Proof. induction s as [|c s IH]; simpl; [done|by rewrite IH]. Qed.

Lemma lower_length (s : string) : String.length (lower s) = String.length s.
Proof. induction s as [|c s IH]; simpl; [done|by rewrite IH]. Qed.

Lemma string_app_length (s t : string) :
  String.length (s ++ t)%string = String.length s + String.length t.
Proof. induction s as [|c s IH]; simpl; [done|by rewrite IH]. Qed.

Lemma string_app_assoc (s t u : string) :
  ((s ++ t) ++ u)%string = (s ++ (t ++ u))%string.
Proof.
  induction s as [|c s IH]; [reflexivity|].
  change (String c ((s ++ t) ++ u) = String c (s ++ t ++ u))%string.
  by rewrite IH.
Qed.

Lemma str_in_length needle hay :
  str_in needle hay = true -> String.length needle <= String.length hay.
Proof.
  intros (pre & post & ->)%str_in_spec. rewrite !string_app_length. lia.
Qed.

Lemma termination_message_str (msg : message) (s : string) :
  msg !! "content" = Some (VStr s) ->
  termination_message msg = Ok (str_in "terminate" (lower s)).
Proof. intros Hc. unfold termination_message, dict_get. by rewrite Hc. Qed.

(** X1: text around a terminating content does not undo it: when the
    predicate is true on a content [s], it is true on every content
    [pre ++ s ++ post]. *)
Theorem termination_survives_context (msg msg' : message) (s pre post : string) :
  msg !! "content" = Some (VStr s) ->
  msg' !! "content" = Some (VStr (pre ++ s ++ post)) ->
  termination_message msg = Ok true ->
  termination_message msg' = Ok true.
Proof.
  intros Hc Hc'. rewrite (termination_message_str _ _ Hc),
    (termination_message_str _ _ Hc'). intros [= Hin]. f_equal.
  apply str_in_spec in Hin as (a & b & Hs). apply str_in_spec.
  exists (lower pre ++ a)%string, (b ++ lower post)%string.
  rewrite !lower_app, Hs. by rewrite !string_app_assoc.
Qed.

Lemma termination_survives_context_witness :
  termination_message
    (say "Resolution Checker Agent" "Answer: TERMINATE. Courses follow")
  = Ok true.
Proof.
  apply (termination_survives_context
           (say "Resolution Checker Agent" "TERMINATE") _
           "TERMINATE" "Answer: " ". Courses follow");
    reflexivity.
Defined.

(** X2: a content of fewer than nine characters never terminates the
    conversation. *)
Theorem short_content_continues (msg : message) (s : string) :
  msg !! "content" = Some (VStr s) ->
  String.length s < 9 ->
  termination_message msg = Ok false.
Proof.
  intros Hc Hlen. rewrite (termination_message_str _ _ Hc). f_equal.
  destruct (str_in "terminate" (lower s)) eqn:Hin; [|done].
  apply str_in_length in Hin. rewrite lower_length in Hin. simpl in Hin. lia.
Qed.

Lemma short_content_continues_witness :
  termination_message msg_continue = Ok false.
Proof.
  apply (short_content_continues msg_continue "CONTINUE"); [reflexivity|].
  simpl. lia.
Defined.

End termination_more.

(** ** More about the speaker-selection callback *)

Section selection_more.
Implicit Types (σ : Store) (m pen : message) (lsn : string) (psn : value).

Lemma next_where_none {A} (p : A -> bool) (l : list A) :
  (forall x, x ∈ l -> p x = false) -> next_where p l = Raise StopIteration.
Proof.
  intros Hall. unfold next_where.
  destruct (find p l) as [x|] eqn:Hf; [|done].
  apply find_some in Hf as [Hin Hp]. apply list_elem_of_In in Hin.
  by rewrite (Hall x Hin) in Hp.
Qed.

(** The route-back condition does not look at the store. *)
Lemma route_back_const lsn psn :
  exists r, forall σ, route_back_condition lsn psn σ = (r, σ).
Proof.
  unfold route_back_condition, mbind, M_bind, lift, mret, M_ret.
  destruct (lsn =? "user")%string; [|by eexists].
  destruct (truthy psn); [|by eexists].
  destruct (call_lower psn); by eexists.
Qed.

(** The rule chain looks at the store only through the list of agents. *)
Lemma routing_rules_const m lsn psn :
  exists f : list Agent -> result selection,
    forall σ, routing_rules m lsn psn σ = (f (agents (groupchat σ)), σ).
Proof.
  destruct (route_back_const lsn psn) as [r Hr].
  unfold routing_rules, mbind, M_bind, gets, lift, fmap, M_fmap, mret, M_ret.
  destruct (truthy _).
  { exists (fun ags => Speaker <$> next_where
                         (fun agent => String.eqb (name agent) "User") ags).
    intros σ. by destruct (next_where _ _). }
  destruct r as [[]|e].
  - exists (fun ags => Speaker <$> next_where
                         (fun agent => str_eq_value (name agent) psn) ags).
    intros σ. rewrite Hr. by destruct (next_where _ _).
  - destruct (list_in lsn agents_to_check).
    + exists (fun ags => Speaker <$> next_where
                (fun agent => String.eqb (name agent) "Resolution Checker Agent")
                ags).
      intros σ. rewrite Hr. by destruct (next_where _ _).
    + exists (fun _ => Ok Auto). intros σ. by rewrite Hr.
  - exists (fun _ => Raise e). intros σ. by rewrite Hr.
Qed.

Lemma routing_rules_agents m lsn psn σ1 σ2 :
  agents (groupchat σ1) = agents (groupchat σ2) ->
  (routing_rules m lsn psn σ1).1 = (routing_rules m lsn psn σ2).1.
Proof.
  intros H. destruct (routing_rules_const m lsn psn) as [f Hf].
  by rewrite !Hf, H.
Qed.

(** A penultimate name that is false in Python's sense switches the
    route-back rule off, like [None]. *)
Lemma routing_rules_falsy m lsn psn σ :
  truthy psn = false ->
  routing_rules m lsn psn σ = routing_rules m lsn VNone σ.
Proof.
  intros Hf. unfold routing_rules, route_back_condition, mbind, M_bind.
  rewrite Hf. destruct (truthy (dict_get _ _ _)); [done|].
  by destruct (lsn =? "user")%string.
Qed.

Lemma str_eq_value_true (s : string) (v : value) :
  str_eq_value s v = true -> v = VStr s.
Proof. destruct v; simpl; try done. by intros ->%String.eqb_eq. Qed.

Local Ltac checker_tail Htc :=
  let Hl := fresh "Hl" in
  let Hn := fresh "Hn" in
  destruct (list_in _ agents_to_check) eqn:Hl; [|done];
  destruct (next_where _ _) eqn:Hn; simpl; [|done];
  intros [= ->]; apply next_where_Ok in Hn as [_ Hn];
  right; right; split; [done|];
  split; [by apply list_in_spec|by apply String.eqb_eq].

(** Which rule produced a selected agent. *)
Lemma routing_rules_inv m lsn psn σ a :
  (routing_rules m lsn psn σ).1 = Ok (Speaker a) ->
  (has_tool_call m /\ name a = "User")
  \/ (~ has_tool_call m /\ lsn = "user" /\ psn = VStr (name a)
      /\ lower (name a) ∉ ["user"; "resolution checker agent"])
  \/ (~ has_tool_call m /\ lsn ∈ agents_to_check
      /\ name a = "Resolution Checker Agent").
Proof.
  unfold routing_rules, route_back_condition, has_tool_call,
    mbind, M_bind, gets, lift, fmap, M_fmap, mret, M_ret.
  destruct (truthy (dict_get m _ _)) eqn:Htc.
  { destruct (next_where _ _) eqn:Hn; simpl; [|done].
    intros [= ->]. apply next_where_Ok in Hn as [_ Hn].
    left. split; [done|by apply String.eqb_eq]. }
  destruct (String.eqb_spec lsn "user") as [->|Hne].
  - destruct (truthy psn) eqn:Ht.
    + destruct (call_lower psn) as [l|e] eqn:Hl; [|done].
      destruct (list_in l ["user"; "resolution checker agent"]) eqn:Hin;
        cbn [negb]; [checker_tail Htc|].
      destruct (next_where _ _) eqn:Hn; simpl; [|done].
      intros [= ->]. apply next_where_Ok in Hn as [_ Hn].
      apply str_eq_value_true in Hn. subst psn. simpl in Hl.
      injection Hl as <-. right. left.
      split; [done|]. split; [done|]. split; [done|].
      rewrite <- list_in_spec. by rewrite Hin.
    + cbv beta iota. checker_tail Htc.
  - cbv beta iota. checker_tail Htc.
Qed.

(** Every run is of one of three kinds. *)
Lemma run_cases σ :
  (messages (groupchat σ) = [] /\ custom_speaker_selection σ = (Raise IndexError, σ))
  \/ exists earlier m,
       messages (groupchat σ) = earlier ++ [m]
       /\ (custom_speaker_selection σ = (Raise KeyError, σ)
           \/ exists psn,
                custom_speaker_selection σ
                = routing_rules m (lower (name (last_speaker σ))) psn σ
                /\ (psn = VNone
                    \/ exists earlier' pen,
                         earlier = earlier' ++ [pen]
                         /\ pen !! "name" = Some psn)).
Proof.
  destruct (transcript_shape (messages (groupchat σ)))
    as [H|[[m H]|(earlier & pen & m & H)]].
  - left. split; [done|by apply run_empty].
  - right. exists [], m. split; [done|]. right. exists VNone.
    split; [by apply run_single|by left].
  - right. exists (earlier ++ [pen]), m.
    split; [by rewrite H, <- app_assoc|].
    destruct (pen !! "name") as [v|] eqn:Hv.
    + right. exists v. split; [by apply (run_named σ earlier pen m)|].
      right. by exists earlier, pen.
    + rewrite (run_unnamed σ earlier pen m H Hv).
      destruct (dict_truthy pen); [by left|].
      right. exists VNone. split; [done|by left].
Qed.

End selection_more.

(** ** What the callback depends on, and what it never does *)

Section selection_extras.
Implicit Types (σ : Store) (m pen : message) (lsn : string) (psn : value).

(** X3: the callback is reactive: with two or more messages in the
    transcript its outcome is the same whatever precedes the last two. *)
Theorem earlier_messages_irrelevant (speaker : Agent) (ags : list Agent)
    (e1 e2 : list message) (pen m : message) :
  (custom_speaker_selection
     {| last_speaker := speaker;
        groupchat := {| agents := ags; messages := e1 ++ [pen; m] |} |}).1
  = (custom_speaker_selection
       {| last_speaker := speaker;
          groupchat := {| agents := ags; messages := e2 ++ [pen; m] |} |}).1.
Proof.
  set (σ1 := {| last_speaker := speaker;
                groupchat := {| agents := ags; messages := e1 ++ [pen; m] |} |}).
  set (σ2 := {| last_speaker := speaker;
                groupchat := {| agents := ags; messages := e2 ++ [pen; m] |} |}).
  destruct (pen !! "name") as [v|] eqn:Hv.
  - rewrite (run_named σ1 e1 pen m v eq_refl Hv),
      (run_named σ2 e2 pen m v eq_refl Hv).
    by apply routing_rules_agents.
  - rewrite (run_unnamed σ1 e1 pen m eq_refl Hv),
      (run_unnamed σ2 e2 pen m eq_refl Hv).
    destruct (dict_truthy pen); [done|]. by apply routing_rules_agents.
Qed.

(** X4: the last speaker matters only through its lowercased name: two
    last speakers whose names differ in case only get the same outcome. *)
Theorem speaker_case_irrelevant (s1 s2 : Agent) (gc : GroupChat) :
  lower (name s1) = lower (name s2) ->
  (custom_speaker_selection {| last_speaker := s1; groupchat := gc |}).1
  = (custom_speaker_selection {| last_speaker := s2; groupchat := gc |}).1.
Proof.
  intros Hl.
  destruct (transcript_shape (messages gc)) as [H|[[m H]|(earlier & pen & m & H)]].
  - by rewrite !run_empty.
  - rewrite (run_single {| last_speaker := s1 |} m H),
      (run_single {| last_speaker := s2 |} m H). simpl. rewrite Hl.
    by apply routing_rules_agents.
  - destruct (pen !! "name") as [v|] eqn:Hv.
    + rewrite (run_named {| last_speaker := s1 |} earlier pen m v H Hv),
        (run_named {| last_speaker := s2 |} earlier pen m v H Hv).
      simpl. rewrite Hl. by apply routing_rules_agents.
    + rewrite (run_unnamed {| last_speaker := s1 |} earlier pen m H Hv),
        (run_unnamed {| last_speaker := s2 |} earlier pen m H Hv).
      destruct (dict_truthy pen); [done|].
      simpl. rewrite Hl. by apply routing_rules_agents.
Qed.

Lemma speaker_case_irrelevant_witness :
  (custom_speaker_selection
     {| last_speaker := UserProxyAgent "USER";
        groupchat := chat_with [msg_request; msg_tool_call; msg_tool_response] |}).1
  = (custom_speaker_selection
       {| last_speaker := cell7 user_proxy;
          groupchat := chat_with [msg_request; msg_tool_call; msg_tool_response] |}).1.
Proof.
  apply (speaker_case_irrelevant (UserProxyAgent "USER") (cell7 user_proxy)).
  reflexivity.
Defined.

(** X5: a selected agent is accounted for by exactly one rule: it is
    named "User" and the last message carries a tool call; or there is no
    tool call, the last speaker is the User and the agent bears the name
    recorded in the penultimate message, which is neither the User's nor
    the resolution checker's; or there is no tool call, the last speaker
    is a task agent and the agent is named "Resolution Checker Agent". *)
Theorem selected_agent_inversion (σ : Store) (a : Agent) :
  (custom_speaker_selection σ).1 = Ok (Speaker a) ->
  exists earlier m,
    messages (groupchat σ) = earlier ++ [m]
    /\ a ∈ agents (groupchat σ)
    /\ ((has_tool_call m /\ name a = "User")
        \/ (~ has_tool_call m
            /\ lower (name (last_speaker σ)) = "user"
            /\ (exists earlier' pen,
                  earlier = earlier' ++ [pen]
                  /\ speaker_of pen = Some (name a))
            /\ lower (name a) ∉ ["user"; "resolution checker agent"])
        \/ (~ has_tool_call m
            /\ lower (name (last_speaker σ)) ∈ agents_to_check
            /\ name a = "Resolution Checker Agent")).
Proof.
  intros Hr. pose proof (selection_member σ a Hr) as Hin.
  destruct (run_cases σ) as [[_ Hrun]|(earlier & m & H & [Hrun|(psn & Hrun & Hpsn)])];
    [by rewrite Hrun in Hr|by rewrite Hrun in Hr|].
  exists earlier, m. split; [done|]. split; [done|].
  rewrite Hrun in Hr.
  destruct (routing_rules_inv _ _ _ _ _ Hr)
    as [?|[(Htc & Hu & -> & Hl)|?]]; [by left| |by right; right].
  right. left. split; [done|]. split; [done|]. split; [|done].
  destruct Hpsn as [[=]|(earlier' & pen & -> & Hn)].
  exists earlier', pen. split; [done|]. by apply speaker_of_Some.
Qed.

Lemma selected_agent_inversion_witness :
  exists earlier m,
    [msg_request; msg_tool_call; msg_tool_response] = earlier ++ [m]
    /\ cell7 courses_recommender ∈ agents the_groupchat
    /\ ((has_tool_call m /\ name (cell7 courses_recommender) = "User")
        \/ (~ has_tool_call m
            /\ lower (name (cell7 user_proxy)) = "user"
            /\ (exists earlier' pen,
                  earlier = earlier' ++ [pen]
                  /\ speaker_of pen = Some (name (cell7 courses_recommender)))
            /\ lower (name (cell7 courses_recommender))
               ∉ ["user"; "resolution checker agent"])
        \/ (~ has_tool_call m
            /\ lower (name (cell7 user_proxy)) ∈ agents_to_check
            /\ name (cell7 courses_recommender) = "Resolution Checker Agent")).
Proof.
  apply (selected_agent_inversion
           (state user_proxy [msg_request; msg_tool_call; msg_tool_response])
           (cell7 courses_recommender)).
  reflexivity.
Defined.

(** X6: an agent whose name lowercases to "user" is selected only to
    execute a tool call: whenever the callback returns such an agent, the
    last message carries a non-empty "tool_calls" field. *)
Theorem user_only_for_tool_call (σ : Store) (a : Agent) :
  (custom_speaker_selection σ).1 = Ok (Speaker a) ->
  lower (name a) = "user" ->
  exists earlier m,
    messages (groupchat σ) = earlier ++ [m] /\ has_tool_call m.
Proof.
  intros Hr Hu.
  destruct (run_cases σ) as [[_ Hrun]|(earlier & m & H & [Hrun|(psn & Hrun & _)])];
    [by rewrite Hrun in Hr|by rewrite Hrun in Hr|].
  exists earlier, m. split; [done|]. rewrite Hrun in Hr.
  destruct (routing_rules_inv _ _ _ _ _ Hr)
    as [[? _]|[(_ & _ & _ & Hl)|(_ & _ & Hn)]]; [done| |].
  - exfalso. apply Hl. rewrite Hu. apply list_elem_of_In. simpl. auto.
  - rewrite Hn in Hu. vm_compute in Hu. discriminate Hu.
Qed.

Lemma user_only_for_tool_call_witness :
  exists earlier m,
    [msg_request; msg_tool_call] = earlier ++ [m] /\ has_tool_call m.
Proof.
  apply (user_only_for_tool_call
           (state courses_recommender [msg_request; msg_tool_call])
           (cell7 user_proxy));
    reflexivity.
Defined.

End selection_extras.

(** ** When the callback returns and when it raises *)

Section selection_errors.
Implicit Types (σ : Store) (m pen : message) (lsn : string) (psn : value).

Lemma routing_rules_returns m lsn psn σ :
  (exists a, a ∈ agents (groupchat σ) /\ name a = "User") ->
  (exists a, a ∈ agents (groupchat σ) /\ name a = "Resolution Checker Agent") ->
  (psn = VNone
   \/ exists n, psn = VStr n /\ exists a, a ∈ agents (groupchat σ) /\ name a = n) ->
  exists r, routing_rules m lsn psn σ = (Ok r, σ).
Proof.
  intros (u & Hu & _ & _)%named_agent_found (c & Hc & _ & _)%named_agent_found Hpsn.
  unfold routing_rules, mbind, M_bind, gets, lift, fmap, M_fmap, mret, M_ret.
  destruct (truthy (dict_get _ _ _)); [rewrite Hu; by eexists|].
  assert (exists r,
    (if list_in lsn agents_to_check
     then fun σ' : Store =>
       match next_where
               (fun agent => String.eqb (name agent) "Resolution Checker Agent")
               (agents (groupchat σ')) with
       | Ok x => (Ok (Speaker x), σ')
       | Raise e => (Raise e, σ')
       end
     else fun σ' : Store => (Ok Auto, σ')) σ = (Ok r, σ)) as Htail.
  { destruct (list_in lsn agents_to_check); [rewrite Hc|]; by eexists. }
  destruct Hpsn as [->|(n & -> & Hn)]; [by rewrite route_back_None|].
  apply named_agent_found in Hn as (b & Hb & _ & _).
  unfold route_back_condition, mbind, M_bind, lift, mret, M_ret.
  destruct (lsn =? "user")%string; [|done].
  destruct (truthy (VStr n)); [|done]. cbn [call_lower].
  destruct (list_in (lower n) ["user"; "resolution checker agent"]);
    cbn [negb]; [done|].
  change (fun agent : Agent => str_eq_value (name agent) (VStr n))
    with (fun agent : Agent => String.eqb (name agent) n).
  rewrite Hb. by eexists.
Qed.

(** X7: in a group chat that has an agent named "User", an agent named
    "Resolution Checker Agent" and an agent for every speaker recorded in
    the transcript, the callback never raises on a non-empty transcript:
    it returns an agent or 'auto', for every last speaker. *)
Theorem selection_returns (σ : Store) :
  messages (groupchat σ) <> [] ->
  speakers_known (agents (groupchat σ)) (messages (groupchat σ)) ->
  (exists a, a ∈ agents (groupchat σ) /\ name a = "User") ->
  (exists a, a ∈ agents (groupchat σ) /\ name a = "Resolution Checker Agent") ->
  exists r, custom_speaker_selection σ = (Ok r, σ).
Proof.
  intros Hne Hknown Hu Hc.
  destruct (transcript_shape (messages (groupchat σ)))
    as [H|[[m H]|(earlier & pen & m & H)]]; [done| |].
  - rewrite (run_single σ m H). apply routing_rules_returns; [done|done|by left].
  - rewrite H in Hknown. apply Forall_app in Hknown as [_ Hknown].
    apply Forall_cons_1 in Hknown as [(a & Ha & Hn) _].
    apply speaker_of_Some in Hn. rewrite (run_named σ earlier pen m _ H Hn).
    apply routing_rules_returns; [done|done|].
    right. exists (name a). split; [done|by exists a].
Qed.

Lemma recorded_run_known : speakers_known (agents the_groupchat) recorded_run.
Proof.
  unfold speakers_known, recorded_run.
  repeat (apply Forall_cons_2;
          [first
             [ exists (cell7 user_proxy);
               split; [apply (participant_in_chat _ [])|reflexivity]
             | exists (cell7 courses_recommender);
               split; [apply (participant_in_chat _ [])|reflexivity]
             | exists (cell7 resolution_checker);
               split; [apply (participant_in_chat _ [])|reflexivity] ]|]).
  apply Forall_nil_2.
Qed.

Lemma selection_returns_witness :
  exists r, custom_speaker_selection (state cv_analyser recorded_run)
            = (Ok r, state cv_analyser recorded_run).
Proof.
  apply (selection_returns (state cv_analyser recorded_run)).
  - discriminate.
  - apply recorded_run_known.
  - apply (chat_has user_proxy).
  - apply (chat_has resolution_checker).
Defined.

(** X8: the guard of the route-back rule compares names in lower case but
    the lookup compares them as they are: when the User spoke last, the
    last message has no tool call, and the penultimate message records a
    non-empty name that passes the guard but that no agent of the chat
    bears, the callback raises [StopIteration]. *)
Theorem unknown_speaker_stops (σ : Store) (earlier : list message)
    (pen m : message) (n : string) :
  messages (groupchat σ) = earlier ++ [pen; m] ->
  ~ has_tool_call m ->
  lower (name (last_speaker σ)) = "user" ->
  speaker_of pen = Some n ->
  n <> EmptyString ->
  lower n ∉ ["user"; "resolution checker agent"] ->
  (forall a, a ∈ agents (groupchat σ) -> name a <> n) ->
  custom_speaker_selection σ = (Raise StopIteration, σ).
Proof.
  intros H Htc Hu Hn Hne Hl Hnone.
  apply speaker_of_Some in Hn. rewrite (run_named σ earlier pen m _ H Hn), Hu.
  unfold routing_rules, route_back_condition, mbind, M_bind, gets, lift, fmap,
    M_fmap, mret, M_ret.
  apply not_true_is_false in Htc. rewrite Htc, String.eqb_refl.
  assert (truthy (VStr n) = true) as ->.
  { simpl. by destruct (String.eqb_spec n EmptyString). }
  assert (list_in (lower n) ["user"; "resolution checker agent"] = false) as Hin.
  { destruct (list_in _ _) eqn:Hin; [|done]. by apply list_in_spec in Hin. }
  cbn [call_lower]. rewrite Hin. cbn [negb].
  rewrite next_where_none; [done|].
  intros a Ha. simpl. apply String.eqb_neq. by apply Hnone.
Qed.

Lemma unknown_speaker_stops_witness :
  custom_speaker_selection
    (state user_proxy [msg_request; msg_lower_case; msg_tool_response])
  = (Raise StopIteration,
     state user_proxy [msg_request; msg_lower_case; msg_tool_response]).
Proof.
  apply (unknown_speaker_stops
           (state user_proxy [msg_request; msg_lower_case; msg_tool_response])
           [msg_request] msg_lower_case msg_tool_response "cv analyser").
  - reflexivity.
  - unfold has_tool_call. vm_compute. discriminate.
  - reflexivity.
  - reflexivity.
  - discriminate.
  - rewrite <- list_in_spec. vm_compute. discriminate.
  - intros a Ha. apply list_elem_of_In in Ha. simpl in Ha.
    destruct Ha as [<-|[<-|[<-|[<-|[<-|[]]]]]]; discriminate.
Defined.

(** X9: a penultimate name that is true in Python's sense but not a
    string (a number, a list) makes the guard's call of [lower] raise
    [AttributeError], when the User spoke last and the last message has
    no tool call. *)
Theorem unnamed_value_raises (σ : Store) (earlier : list message)
    (pen m : message) (v : value) :
  messages (groupchat σ) = earlier ++ [pen; m] ->
  ~ has_tool_call m ->
  lower (name (last_speaker σ)) = "user" ->
  pen !! "name" = Some v ->
  truthy v = true ->
  (forall s, v <> VStr s) ->
  custom_speaker_selection σ = (Raise AttributeError, σ).
Proof.
  intros H Htc Hu Hn Ht Hv.
  rewrite (run_named σ earlier pen m _ H Hn), Hu.
  unfold routing_rules, route_back_condition, mbind, M_bind, lift.
  apply not_true_is_false in Htc. rewrite Htc, String.eqb_refl, Ht.
  destruct v; try done. by destruct (Hv s).
Qed.

Lemma unnamed_value_raises_witness :
  custom_speaker_selection
    (state user_proxy [msg_request; msg_numbered; msg_tool_response])
  = (Raise AttributeError,
     state user_proxy [msg_request; msg_numbered; msg_tool_response]).
Proof.
  apply (unnamed_value_raises
           (state user_proxy [msg_request; msg_numbered; msg_tool_response])
           [msg_request] msg_numbered msg_tool_response (VInt 7)).
  - reflexivity.
  - unfold has_tool_call. vm_compute. discriminate.
  - reflexivity.
  - reflexivity.
  - reflexivity.
  - discriminate.
Defined.

(** X10: a penultimate message that has keys but no "name" key makes the
    callback raise [KeyError] before any rule is tried, also when the last
    message carries a tool call. *)
Theorem missing_name_raises (σ : Store) (earlier : list message) (pen m : message) :
  messages (groupchat σ) = earlier ++ [pen; m] ->
  pen !! "name" = None ->
  pen <> ∅ ->
  custom_speaker_selection σ = (Raise KeyError, σ).
Proof.
  intros H Hn Hne. rewrite (run_unnamed σ earlier pen m H Hn).
  unfold dict_truthy. destruct (Nat.eqb_spec (size pen) 0) as [Hz|]; [|done].
  by apply map_size_empty_iff in Hz.
Qed.

Lemma missing_name_raises_witness :
  custom_speaker_selection
    (state courses_recommender [{[ "content" := VStr "hello" ]}; msg_tool_call])
  = (Raise KeyError,
     state courses_recommender [{[ "content" := VStr "hello" ]}; msg_tool_call]).
Proof.
  apply (missing_name_raises
           (state courses_recommender
              [{[ "content" := VStr "hello" ]}; msg_tool_call])
           [] {[ "content" := VStr "hello" ]} msg_tool_call).
  - reflexivity.
  - reflexivity.
  - intros Heq.
    assert (({[ "content" := VStr "hello" ]} : message) !! "content" = None)
      as Hl by (by rewrite Heq).
    vm_compute in Hl. discriminate Hl.
Defined.

(** X11: a penultimate message that is the empty dictionary, or whose
    name is false in Python's sense ([None], the empty string), switches
    the route-back rule off: the outcome is that of the transcript made
    of the last message alone. *)
Theorem nameless_penultimate_ignored (speaker : Agent) (ags : list Agent)
    (earlier : list message) (pen m : message) :
  pen = ∅ \/ (exists v, pen !! "name" = Some v /\ truthy v = false) ->
  (custom_speaker_selection
     {| last_speaker := speaker;
        groupchat := {| agents := ags; messages := earlier ++ [pen; m] |} |}).1
  = (custom_speaker_selection
       {| last_speaker := speaker;
          groupchat := {| agents := ags; messages := [m] |} |}).1.
Proof.
  set (σ1 := {| last_speaker := speaker;
                groupchat := {| agents := ags; messages := earlier ++ [pen; m] |} |}).
  set (σ2 := {| last_speaker := speaker;
                groupchat := {| agents := ags; messages := [m] |} |}).
  rewrite (run_single σ2 m eq_refl).
  intros [->|(v & Hv & Hf)].
  - rewrite (run_unnamed σ1 earlier ∅ m eq_refl (lookup_empty _)).
    unfold dict_truthy. rewrite map_size_empty. simpl.
    by apply routing_rules_agents.
  - rewrite (run_named σ1 earlier pen m v eq_refl Hv).
    rewrite (routing_rules_falsy _ _ _ _ Hf). by apply routing_rules_agents.
Qed.

Lemma nameless_penultimate_ignored_witness :
  (custom_speaker_selection
     (state user_proxy [msg_request; msg_anonymous; msg_tool_response])).1
  = (custom_speaker_selection (state user_proxy [msg_tool_response])).1.
Proof.
  apply (nameless_penultimate_ignored (cell7 user_proxy) (agents the_groupchat)
           [msg_request] msg_anonymous msg_tool_response).
  right. exists (VStr EmptyString). split; reflexivity.
Defined.

(** X12: the tool-call round trip in the configured chat: when a task
    agent's message carries a tool call the callback selects the User
    proxy, and once the User proxy has answered without a tool call the
    callback gives the turn back to that same task agent. *)
Theorem tool_call_round_trip (v : agent_var) (earlier : list message)
    (call response : message) :
  v ∈ [cv_analyser; skills_extractor; courses_recommender] ->
  recorded earlier ->
  speaker_of call = Some (name (cell7 v)) ->
  has_tool_call call ->
  ~ has_tool_call response ->
  custom_speaker_selection (state v (earlier ++ [call]))
  = (Ok (Speaker (cell7 user_proxy)), state v (earlier ++ [call]))
  /\ custom_speaker_selection (state user_proxy (earlier ++ [call; response]))
     = (Ok (Speaker (cell7 v)), state user_proxy (earlier ++ [call; response])).
Proof.
  intros Hv Hrec Hcall Htc Hno. split.
  - destruct (run_recorded (state v (earlier ++ [call])) earlier call eq_refl)
      as (psn & -> & _).
    { apply Forall_app. split; [done|]. apply Forall_cons_2; [by eexists|done]. }
    by apply rule_tool_call.
  - apply speaker_of_Some in Hcall.
    rewrite (run_named (state user_proxy (earlier ++ [call; response]))
               earlier call response _ eq_refl Hcall).
    apply list_elem_of_In in Hv. simpl in Hv.
    destruct Hv as [<-|[<-|[<-|[]]]];
      (apply rule_route_back;
       [done|reflexivity|discriminate
       |rewrite <- list_in_spec; vm_compute; discriminate|reflexivity]).
Qed.

Lemma tool_call_round_trip_witness :
  custom_speaker_selection (state courses_recommender [msg_request; msg_tool_call])
  = (Ok (Speaker (cell7 user_proxy)),
     state courses_recommender [msg_request; msg_tool_call])
  /\ custom_speaker_selection
       (state user_proxy [msg_request; msg_tool_call; msg_tool_response])
     = (Ok (Speaker (cell7 courses_recommender)),
        state user_proxy [msg_request; msg_tool_call; msg_tool_response]).
Proof.
  apply (tool_call_round_trip courses_recommender [msg_request]
           msg_tool_call msg_tool_response).
  - apply list_elem_of_In. simpl. auto.
  - apply (recorded_cons _ _ "User"); [reflexivity|apply recorded_nil].
  - reflexivity.
  - reflexivity.
  - unfold has_tool_call. vm_compute. discriminate.
Defined.

End selection_errors.

(** ** Reading the chat history (cells 11 and 12) *)

Section history.
Implicit Types (h : list message) (m : message).

Lemma agent_order_cons m h :
  agent_order (m :: h)
  = match m !! "name" with
    | Some n => match agent_order h with
                | Ok names => Ok (n :: names)
                | Raise e => Raise e
                end
    | None => Raise KeyError
    end.
Proof. simpl. unfold dict_item. by destruct (m !! "name"). Qed.

(** X13: the agent order is the list of the "name" entries, message by
    message: the comprehension returns [names] exactly when the history
    and [names] have the same length and each message holds the
    corresponding name. *)
Theorem agent_order_names (h : list message) (names : list value) :
  agent_order h = Ok names
  <-> Forall2 (fun m n => m !! "name" = Some n) h names.
Proof.
  revert names. induction h as [|m h IH]; intros names.
  - simpl. split; [intros [= <-]; constructor|by intros ->%Forall2_nil_inv_l].
  - rewrite agent_order_cons. split.
    + destruct (m !! "name") as [n|] eqn:Hn; [|done].
      destruct (agent_order h) as [ns|e] eqn:Hh; [|done].
      intros [= <-]. constructor; [done|by apply IH].
    + intros (n & ns & Hn & Hh & ->)%Forall2_cons_inv_l.
      rewrite Hn. apply IH in Hh. by rewrite Hh.
Qed.

Lemma agent_order_names_witness :
  agent_order recorded_run
  = Ok [VStr "User"; VStr "Courses recommender"; VStr "User";
        VStr "Courses recommender"; VStr "Resolution Checker Agent"].
Proof.
  apply (proj2 (agent_order_names recorded_run _)).
  repeat (constructor; [reflexivity|]). constructor.
Defined.

(** X14: the comprehension raises exactly when some message of the
    history has no "name" key, and what it raises is [KeyError]. *)
Theorem agent_order_raises (h : list message) (e : exn) :
  agent_order h = Raise e
  <-> e = KeyError /\ Exists (fun m => m !! "name" = None) h.
Proof.
  induction h as [|m h IH].
  - simpl. split; [done|]. by intros [_ ?%Exists_nil].
  - rewrite agent_order_cons, Exists_cons.
    destruct (m !! "name") as [n|] eqn:Hn.
    + destruct (agent_order h) as [ns|e'] eqn:Hh.
      * split; [done|]. intros [He [?|Hex]]; [done|].
        discriminate (proj2 IH (conj He Hex)).
      * split.
        -- intros [= ->]. destruct (proj1 IH eq_refl) as [-> ?]. by split; [|right].
        -- intros [-> [?|Hex]]; [done|]. by rewrite (proj2 IH (conj eq_refl Hex)).
    + split; [intros [= <-]; by split; [|left]|by intros [-> _]].
Qed.

Lemma agent_order_raises_witness :
  agent_order [msg_request; {[ "content" := VStr "hello" ]}; msg_final]
  = Raise KeyError.
Proof.
  apply (proj2 (agent_order_raises
                  [msg_request; {[ "content" := VStr "hello" ]}; msg_final]
                  KeyError)).
  split; [reflexivity|].
  apply Exists_cons_tl, Exists_cons_hd. reflexivity.
Defined.

Lemma last_result_snoc h m : last_result (h ++ [m]) = dict_item m "content".
Proof. unfold last_result. by rewrite list_item_last. Qed.

(** X15: showing the last result fails in two ways only: [IndexError]
    exactly on the empty history, [KeyError] exactly when the last message
    has no "content" key; otherwise it is the content of the last
    message, whatever the earlier messages are. *)
Theorem last_result_cases (h : list message) :
  (last_result h = Raise IndexError <-> h = [])
  /\ (last_result h = Raise KeyError
      <-> exists h' m, h = h' ++ [m] /\ m !! "content" = None)
  /\ (forall v, last_result h = Ok v
      <-> exists h' m, h = h' ++ [m] /\ m !! "content" = Some v).
Proof.
  destruct h as [|m h _] using rev_ind.
  - unfold last_result. rewrite list_item_nil. simpl.
    split; [done|]. split; [|intros v]; (split; [done|]);
      intros (h' & m & Hh & _); by destruct h'.
  - rewrite last_result_snoc. unfold dict_item.
    split; [split; [by destruct (m !! "content")|by destruct h]|].
    split; [|intros v]; split.
    + destruct (m !! "content") eqn:Hc; [done|]. intros _. by exists h, m.
    + intros (h' & m' & [-> ->]%app_inj_tail & ->). done.
    + destruct (m !! "content") eqn:Hc; [|done]. intros [= ->]. by exists h, m.
    + intros (h' & m' & [-> ->]%app_inj_tail & ->). done.
Qed.

Lemma last_result_cases_witness :
  last_result recorded_run
  = Ok (VStr "TERMINATE. Recommended courses: Deep Learning").
Proof.
  apply (proj2 (proj2 (proj2 (last_result_cases recorded_run)) _)).
  exists [msg_request; msg_tool_call; msg_tool_response; msg_courses], msg_final.
  split; reflexivity.
Defined.

(** X16: when the termination predicate holds of the last message of
    the history, the last result is a string, and its lowercase form
    contains "terminate". *)
Theorem terminated_history_result (h : list message) (m : message) :
  termination_message m = Ok true ->
  exists s, last_result (h ++ [m]) = Ok (VStr s)
    /\ exists pre post, lower s = (pre ++ "terminate" ++ post)%string.
Proof.
  rewrite last_result_snoc. unfold termination_message, dict_get, dict_item.
  destruct (m !! "content") as [v|]; simpl; [|done].
  destruct v; simpl; try done. intros [= Hin].
  exists s. split; [done|]. by apply str_in_spec.
Qed.

Lemma terminated_history_result_witness :
  exists s, last_result recorded_run = Ok (VStr s)
    /\ exists pre post, lower s = (pre ++ "terminate" ++ post)%string.
Proof.
  apply (terminated_history_result
           [msg_request; msg_tool_call; msg_tool_response; msg_courses]
           msg_final).
  reflexivity.
Defined.

End history.

(** ** The tools of cell 7 *)

Section tools.

(** X17: every tool offered to an agent's model is bound to [read_txt] in
    the User proxy's function map, the function map holds nothing else,
    and the agents that are offered a tool are the three that the
    callback sends to the resolution checker. *)
Theorem offered_tools_are_executable :
  (forall nm : string,
     (exists v, nm ∈ tools (cell7 v))
     <-> function_map (cell7 user_proxy) !! nm = Some read_txt_fn)
  /\ (forall v : agent_var,
        tools (cell7 v) <> [] <-> lower (name (cell7 v)) ∈ agents_to_check).
Proof.
  split.
  - intros nm. split.
    + intros [v Hv]. apply list_elem_of_In in Hv.
      destruct v; cbv in Hv;
        first [ destruct Hv as [<-|[]]; reflexivity | by destruct Hv ].
    + change (function_map (cell7 user_proxy))
        with (<["read_txt_cv_skills" := read_txt_fn]>
                (<["read_txt_courses" := read_txt_fn]>
                   (<["read_txt_cv_analyse" := read_txt_fn]>
                      (∅ : gmap string pyfunction)))).
      intros H.
      apply lookup_insert_Some in H as [[<- _]|[_ H]];
        [exists skills_extractor; apply list_elem_of_In; cbv; auto|].
      apply lookup_insert_Some in H as [[<- _]|[_ H]];
        [exists courses_recommender; apply list_elem_of_In; cbv; auto|].
      apply lookup_insert_Some in H as [[<- _]|[_ H]];
        [exists cv_analyser; apply list_elem_of_In; cbv; auto|].
      by rewrite lookup_empty in H.
  - intros v. rewrite <- list_in_spec. destruct v; vm_compute; split; done.
Qed.

Lemma offered_tools_are_executable_witness :
  function_map (cell7 user_proxy) !! "read_txt_courses" = Some read_txt_fn.
Proof.
  apply (proj1 (proj1 offered_tools_are_executable "read_txt_courses")).
  exists courses_recommender. apply list_elem_of_In. cbv. auto.
Defined.

End tools.
